(** * grangernet.utils: visualisation and persistence helpers

    A shallow embedding of [SparseNN/grangernet/utils.py]:
    [_has_autocorrelation], [causal_heatmap], [causal_graph],
    [save_results] and [load_results], together with the fragment of
    numpy, matplotlib and graphviz those functions call.

    Arrays are nested lists, generic in the element type (the numpy
    dtype).  The element operations are collected in the class [Scalar];
    the instance the program runs on is IEEE binary64 ([float]), and
    every statement about its arithmetic is made there.  Exceptions are
    values of [exn]; the calls a function makes on the plotting backend
    are recorded, in order, in a log. *)

From Stdlib Require Import ZArith String Ascii Floats Reals Lra.
From stdpp Require Import gmap strings list fin_maps.

Open Scope string_scope.
Open Scope list_scope.
Open Scope nat_scope.

(** ** Array elements *)

Class Scalar (F : Type) := {
  f_zero : F;                    (* the literal 0 *)
  f_one : F;                     (* the literal 1 *)
  f_five : F;                    (* the literal 5 *)
  f_add : F -> F -> F;
  f_mul : F -> F -> F;
  f_div : F -> F -> F;           (* numpy true division: never raises *)
  f_abs : F -> F;
  f_sqrt : F -> F;
  f_maximum : F -> F -> F;       (* np.maximum, the step of np.max *)
  f_eqb : F -> F -> bool;        (* == *)
  f_ltb : F -> F -> bool;        (* <  *)
  f_leb : F -> F -> bool         (* <= *)
}.

(** binary64: every operation is the IEEE one.  [np.maximum] propagates
    a NaN operand. *)
Definition float_maximum (x y : float) : float :=
  if PrimFloat.is_nan x then x
  else if PrimFloat.is_nan y then y
  else if PrimFloat.ltb x y then y else x.

#[export] Instance float_scalar : Scalar float := {|
  f_zero := 0%float;
  f_one := 1%float;
  f_five := 5%float;
  f_add := PrimFloat.add;
  f_mul := PrimFloat.mul;
  f_div := PrimFloat.div;
  f_abs := PrimFloat.abs;
  f_sqrt := PrimFloat.sqrt;
  f_maximum := float_maximum;
  f_eqb := PrimFloat.eqb;
  f_ltb := PrimFloat.ltb;
  f_leb := PrimFloat.leb
|}.

(** The reals, with comparisons decided by the order of [R].  This is
    not the arithmetic of the program: numpy computes in binary64, where
    sums, products, quotients and square roots round, overflow to
    infinity, underflow to zero and may be NaN.  The instance serves one
    fact about the fold by maximum, which involves the order alone. *)
Definition Reqb (x y : R) : bool := if Req_dec_T x y then true else false.
Definition Rltb (x y : R) : bool := if Rlt_dec x y then true else false.
Definition Rleb (x y : R) : bool := if Rle_dec x y then true else false.

#[export] Instance R_scalar : Scalar R := {|
  f_zero := 0%R;
  f_one := 1%R;
  f_five := 5%R;
  f_add := Rplus;
  f_mul := Rmult;
  f_div := Rdiv;
  f_abs := Rabs;
  f_sqrt := sqrt;
  f_maximum := Rmax;
  f_eqb := Reqb;
  f_ltb := Rltb;
  f_leb := Rleb
|}.

(** Laws of the order the thresholding relies on.  They hold for
    binary64, where a NaN compares false with everything. *)
Class ScalarOrder (F : Type) `{Scalar F} : Prop := {
  f_ltb_not_geb : forall x y : F, f_ltb x y = true -> f_leb y x = false;
  f_one_neq_zero : f_one <> f_zero :> F
}.

(** Arithmetic at zero, as used on an all-zero array. *)
Class ScalarZero (F : Type) `{Scalar F} : Prop := {
  f_mul_zero : f_mul f_zero f_zero = f_zero :> F;
  f_add_zero : f_add f_zero f_zero = f_zero :> F;
  f_abs_zero : f_abs f_zero = f_zero :> F;
  f_sqrt_zero : f_sqrt f_zero = f_zero :> F;
  f_maximum_zero : f_maximum f_zero f_zero = f_zero :> F
}.

(** ** Exceptions and results *)

(** The two [assert] statements of the module. *)
Inductive assert_site := assert_mode | assert_dst.

Inductive exn :=
| AssertionError (site : assert_site)
| IndexError
| TypeError
| ValueError
| KeyError (key : string)
| FileNotFoundError.

Inductive outcome (A : Type) :=
| Ok (a : A)
| Raise (e : exn).
Arguments Ok {A} a.
Arguments Raise {A} e.

Definition raises {A : Type} (o : outcome A) : bool :=
  match o with Ok _ => false | Raise _ => true end.

(** The [ord] argument of [np.linalg.norm] on a vector, for the orders
    that need only [+], [*], [abs] and [sqrt]; Python's [None] selects
    the 2-norm. *)
Inductive norm_ord := ord_1 | ord_2.

(** Tick labels: variable names, or the numbers of [range(1, K + 1)]. *)
Inductive tick_labels :=
| TickNames (names : list string)
| TickNumbers (numbers : list nat).

Definition tick_count (l : tick_labels) : nat :=
  match l with TickNames n => length n | TickNumbers n => length n end.

(** The plotting backend: whether [xticks]/[yticks] accept [n] tick
    positions with [m] labels.  matplotlib's answer changed between
    releases, so it is a parameter of the model. *)
Class Pyplot := { ticks_accepted : nat -> nat -> bool }.

(** matplotlib since 3.3: [set_ticklabels] raises [ValueError] when the
    number of labels is neither zero nor the number of tick positions;
    an empty list of labels is always taken (it removes the labels). *)
Definition strict_pyplot : Pyplot :=
  {| ticks_accepted := fun n m => (m =? 0) || (n =? m) |}.
(** Earlier releases, which take any number of labels. *)
Definition lenient_pyplot : Pyplot := {| ticks_accepted := fun _ _ => true |}.

Definition newline : string := String (ascii_of_nat 10) EmptyString.

(** [s[-1]] *)
Fixpoint str_last (s : string) : option ascii :=
  match s with
  | EmptyString => None
  | String c EmptyString => Some c
  | String _ r => str_last r
  end.

(** [str.format] of a value that may be [None]. *)
Definition format_opt (s : option string) : string :=
  match s with Some x => x | None => "None" end.

Definition format_bool (b : bool) : string := if b then "True" else "False".

(** [range(n)] and [range(a, a + n)] *)
Definition range (n : nat) : list nat := seq 0 n.

Section Numpy.
Context {F : Type} `{Scalar F}.

(** [add.reduce] over a vector, in index order. *)
Definition np_sum (x : list F) : F := foldl f_add f_zero x.

(** [np.linalg.norm] of one vector. *)
Definition vector_norm (ord : option norm_ord) (x : list F) : F :=
  match ord with
  | Some ord_1 => np_sum (f_abs <$> x)
  | Some ord_2 | None => f_sqrt (np_sum ((fun v => f_mul v v) <$> x))
  end.

(** [np.linalg.norm(W, ord=ord, axis=-1)] on a three-dimensional array:
    the lag axis is reduced. *)
Definition linalg_norm (ord : option norm_ord) (W : list (list (list F)))
  : list (list F) :=
  (fun row : list (list F) => vector_norm ord <$> row) <$> W.

(** [m[i, j]] *)
Definition cell (m : list (list F)) (i j : nat) : option F :=
  m !! i ≫= (fun row : list F => row !! j).

(** [np.max(m)]: the reduction of the flattened array by [np.maximum];
    [None] on an array without elements (numpy raises [ValueError]). *)
Definition np_max (m : list (list F)) : option F :=
  match concat m with
  | [] => None
  | x :: r => Some (foldl f_maximum x r)
  end.

(** [np.diag(m)] of a two-dimensional array: the entries [m[i, i]]. *)
Fixpoint diag_from (i : nat) (m : list (list F)) : list F :=
  match m with
  | [] => []
  | row :: rest =>
      match row !! i with
      | Some x => x :: diag_from (S i) rest
      | None => []
      end
  end.
Definition np_diag (m : list (list F)) : list F := diag_from 0 m.

(** [np.all(d == 0)] *)
Definition np_all_zero (d : list F) : bool :=
  forallb (fun x => f_eqb x f_zero) d.

(** [m >= c] and [m < c], elementwise. *)
Definition mask_ge (m : list (list F)) (c : F) : list (list bool) :=
  (fun row : list F => (fun x => f_leb c x) <$> row) <$> m.
Definition mask_lt (m : list (list F)) (c : F) : list (list bool) :=
  (fun row : list F => (fun x => f_ltb x c) <$> row) <$> m.

(** [m[idx] = v] for the index pairs [idx] of [np.where]. *)
Definition set_cell (v : F) (m : list (list F)) (ij : nat * nat)
  : list (list F) :=
  alter (fun row : list F => <[ij.2 := v]> row) ij.1 m.
Definition set_cells (m : list (list F)) (idx : list (nat * nat)) (v : F)
  : list (list F) :=
  foldl (set_cell v) m idx.

(** [row.T] of a [p x K] array. *)
Definition np_transpose (K : nat) (row : list (list F)) : list (list F) :=
  (fun k => omap (fun r : list F => r !! k) row) <$> range K.

(** The 2-norm reduction of lines 219-222. *)
Definition _has_autocorrelation (W : list (list (list F))) : bool :=
  let W_norm := linalg_norm None W in
  negb (np_all_zero (np_diag W_norm)).

End Numpy.

(** [np.where(mask)] on a two-dimensional mask: the index pairs of the
    true cells, in row-major order. *)
Fixpoint where_row (j : nat) (row : list bool) : list nat :=
  match row with
  | [] => []
  | b :: r => (if b then [j] else []) ++ where_row (S j) r
  end.
Fixpoint where_from (i : nat) (mask : list (list bool)) : list (nat * nat) :=
  match mask with
  | [] => []
  | row :: rest => (pair i <$> where_row 0 row) ++ where_from (S i) rest
  end.
Definition np_where (mask : list (list bool)) : list (nat * nat) :=
  where_from 0 mask.

(** Shapes: numpy arrays are rectangular. *)
Definition has_shape2 {A : Type} (m : list (list A)) (r c : nat) : Prop :=
  length m = r /\ Forall (fun row => length row = c) m.
Definition has_shape3 {A : Type} (W : list (list (list A))) (n p K : nat) : Prop :=
  length W = n /\ Forall (fun M => has_shape2 M p K) W.

(** ** Effects: the calls made on matplotlib, the file system and graphviz *)

Inductive event (F : Type) :=
| Print (s : string)                              (* print(s) *)
| Figure (w h : nat)                              (* plt.figure(figsize=(w, h)) *)
| Imshow (m : list (list F))                      (* plt.imshow(m, cmap='Greys') *)
| Xlabel (s : string)
| Ylabel (s : string)
| Xticks (locs : list nat) (labels : tick_labels)
| Yticks (locs : list nat) (labels : tick_labels)
| XaxisLabelTop                                   (* ax.xaxis.set_label_position('top') *)
| XaxisTickTop                                    (* ax.xaxis.tick_top() *)
| Clim (vmin : F) (vmax : option F)               (* plt.clim(vmin=.., vmax=..) *)
| Pause                                           (* plt.pause(0.001) *)
| Mkdir (path : string)                           (* Path(path).mkdir(exist_ok=True, parents=True) *)
| Savefig (path : string)                         (* plt.savefig(path, bbox_inches='tight') *)
| Render (filename directory : string).           (* dot.render(filename, directory, ...) *)
Arguments Print {F} s.
Arguments Figure {F} w h.
Arguments Imshow {F} m.
Arguments Xlabel {F} s.
Arguments Ylabel {F} s.
Arguments Xticks {F} locs labels.
Arguments Yticks {F} locs labels.
Arguments XaxisLabelTop {F}.
Arguments XaxisTickTop {F}.
Arguments Clim {F} vmin vmax.
Arguments Pause {F}.
Arguments Mkdir {F} path.
Arguments Savefig {F} path.
Arguments Render {F} filename directory.

(** A computation appends to the log of calls and returns a value or
    raises; the calls made before an exception stay in the log. *)
Definition M (F A : Type) : Type := list (event F) -> outcome A * list (event F).

Definition ret {F A : Type} (a : A) : M F A := fun log => (Ok a, log).
Definition raise {F A : Type} (e : exn) : M F A := fun log => (Raise e, log).
Definition emit {F : Type} (ev : event F) : M F unit :=
  fun log => (Ok tt, log ++ [ev]).
Definition bind {F A B : Type} (m : M F A) (k : A -> M F B) : M F B :=
  fun log =>
    match m log with
    | (Ok a, log') => k a log'
    | (Raise e, log') => (Raise e, log')
    end.

Declare Scope py_scope.
Delimit Scope py_scope with py.
Notation "x <- m ;; k" := (bind m (fun x => k))
  (at level 100, m at next level, right associativity) : py_scope.
Notation "m ;; k" := (bind m (fun _ => k))
  (at level 100, right associativity) : py_scope.
Open Scope py_scope.

(** [assert b] at the given site, with assertions enabled (the interpreter
    is not run with -O). *)
Definition py_assert {F : Type} (b : bool) (site : assert_site) : M F unit :=
  if b then ret tt else raise (AssertionError site).

(** A value that the callee may fail to produce. *)
Definition or_raise {F A : Type} (o : option A) (e : exn) : M F A :=
  match o with Some a => ret a | None => raise e end.

(** [for a in l: body a] *)
Fixpoint for_each {F A : Type} (l : list A) (body : A -> M F unit) : M F unit :=
  match l with
  | [] => ret tt
  | a :: r => body a ;; for_each r body
  end.

(** A list built by a loop whose body may raise. *)
Fixpoint map_M {F A B : Type} (f : A -> M F B) (l : list A) : M F (list B) :=
  match l with
  | [] => ret []
  | a :: r => b <- f a ;; bs <- map_M f r ;; ret (b :: bs)
  end.

(** ** graphviz *)

Inductive stmt (F : Type) :=
| Node (name label : string)
| Edge (tail_name head_name : string) (penwidth : F) (arrowsize : string).
Arguments Node {F} name label.
Arguments Edge {F} tail_name head_name penwidth arrowsize.

(** A [Digraph]: its [graph_attr] dictionary and its body, the node and
    edge statements in the order they were added.  [penwidth] holds the
    number whose [str] the source passes. *)
Record Digraph (F : Type) := {
  graph_attr : gmap string string;
  body : list (stmt F)
}.
Arguments graph_attr {F} d.
Arguments body {F} d.

(** The modes [causal_heatmap] accepts. *)
Definition heatmap_modes : list string := ["joint"; "ind"; "joint_threshold"].

Section Renderer.
Context {F : Type} `{Scalar F} {PLT : Pyplot}.

Definition plt_xticks (locs : list nat) (labels : tick_labels) : M F unit :=
  if ticks_accepted (length locs) (tick_count labels)
  then emit (Xticks locs labels) else raise ValueError.
Definition plt_yticks (locs : list nat) (labels : tick_labels) : M F unit :=
  if ticks_accepted (length locs) (tick_count labels)
  then emit (Yticks locs labels) else raise ValueError.

(** [W[0].shape] *)
Definition shape_of_first (W : list (list (list F))) : M F (nat * nat) :=
  match W with
  | [] => raise IndexError
  | W0 :: _ => ret (length W0, match W0 with [] => 0 | r :: _ => length r end)
  end.

(** [assert dst[-1] == '/'] followed by the creation of the directory
    (lines 65-68, 98-101 and 122-125). *)
Definition prepare_dst (d : string) : M F unit :=
  c <- or_raise (str_last d) IndexError ;;
  py_assert (Ascii.eqb c "/"%char) assert_dst ;;
  emit (Mkdir d).

(** Lines 49-70, and again lines 82-103: the effect-by-cause heatmap of
    [m] and its optional file. *)
Definition plot_overall (p : nat) (m : list (list F)) (var_names : list string)
    (dst file_header : option string) (ext : string) : M F unit :=
  emit (Figure p p) ;;
  emit (Imshow m) ;;
  emit (Xlabel ("Cause" ++ newline)) ;;
  plt_xticks (range p) (TickNames var_names) ;;
  emit (Ylabel "Response") ;;
  plt_yticks (range p) (TickNames var_names) ;;
  emit XaxisLabelTop ;;
  emit XaxisTickTop ;;
  emit (Clim f_zero None) ;;
  emit Pause ;;
  match dst with
  | None => ret tt
  | Some d =>
      prepare_dst d ;;
      match file_header with
      | None => raise TypeError          (* dst + None *)
      | Some h => emit (Savefig (d ++ h ++ "_overall." ++ ext))
      end
  end.

(** Lines 74-79: the norm matrix thresholded in place. *)
Definition joint_threshold_matrix (_W_norm : list (list F)) (threshold : F)
  : M F (list (list F)) :=
  mx <- or_raise (np_max _W_norm) ValueError ;;
  let idx_above := np_where (mask_ge _W_norm (f_mul threshold mx)) in
  mx' <- or_raise (np_max _W_norm) ValueError ;;
  let idx_below := np_where (mask_lt _W_norm (f_mul threshold mx')) in
  let _W_norm1 := set_cells _W_norm idx_above f_one in
  let _W_norm2 := set_cells _W_norm1 idx_below f_zero in
  ret _W_norm2.

(** Lines 107-130: the body of the loop of mode ['ind']. *)
Definition plot_ind (p K : nat) (_W_norm : list (list F))
    (var_names : list string) (dst file_header : option string) (ext : string)
    (var_row : string * list (list F)) : M F unit :=
  let var := var_row.1 in
  let row := var_row.2 in
  emit (Figure K p) ;;
  emit (Imshow (np_transpose K row)) ;;
  emit (Xlabel ("Causes to " ++ var ++ newline)) ;;
  plt_xticks (range p) (TickNames var_names) ;;
  emit (Ylabel "Time Lag") ;;
  plt_yticks (range K) (TickNumbers (seq 1 K)) ;;
  emit XaxisLabelTop ;;
  emit XaxisTickTop ;;
  mx <- or_raise (np_max _W_norm) ValueError ;;
  emit (Clim f_zero (Some mx)) ;;
  match dst with
  | None => ret tt
  | Some d =>
      prepare_dst d ;;
      emit (Savefig (d ++ format_opt file_header ++ "_" ++ var ++ "." ++ ext))
  end ;;
  emit (Print "") ;;
  emit Pause.

Definition causal_heatmap (W : list (list (list F))) (var_names : list string)
    (mode : string) (ord : option norm_ord) (threshold : F)
    (dst file_header : option string) (ext : string) : M F unit :=
  py_assert (bool_decide (mode ∈ heatmap_modes)) assert_mode ;;
  pK <- shape_of_first W ;;
  let p := pK.1 in
  let K := pK.2 in
  let _W_norm := linalg_norm ord W in
  let autocorrelation_setting := _has_autocorrelation W in
  emit (Print ("Autocorrelation during analysis: "
               ++ format_bool autocorrelation_setting)) ;;
  if bool_decide (mode = "joint") then
    plot_overall p _W_norm var_names dst file_header ext
  else if bool_decide (mode = "joint_threshold") then
    _W_norm' <- joint_threshold_matrix _W_norm threshold ;;
    plot_overall p _W_norm' var_names dst file_header ext
  else if bool_decide (mode = "ind") then
    for_each (zip var_names W) (plot_ind p K _W_norm var_names dst file_header ext)
  else ret tt.

(** Lines 166-169: the edge of one index pair of [np.where]. *)
Definition graph_edge (_W_norm : list (list F)) (var_names : list string)
    (ec : nat * nat) : M F (stmt F) :=
  let effect := ec.1 in
  let cause := ec.2 in
  x <- or_raise (cell _W_norm effect cause) IndexError ;;
  mx <- or_raise (np_max _W_norm) ValueError ;;
  let _weight := f_div x mx in
  tl <- or_raise (var_names !! cause) IndexError ;;
  hd <- or_raise (var_names !! effect) IndexError ;;
  ret (Edge tl hd (f_mul f_five _weight) "1").

Definition causal_graph (W : list (list (list F))) (var_names : list string)
    (threshold : F) (use_circo_layout : option bool)
    (dst : option string) (filename : string) : M F (Digraph F) :=
  let _W_norm := linalg_norm None W in
  let attr0 : gmap string string := <["rankdir" := "LR"]> (<["margin" := "0"]> ∅) in
  let attr :=
    if negb (_has_autocorrelation W) then <["layout" := "circo"]> attr0
    else attr0 in
  let nodes := (fun var => Node var var) <$> var_names in
  mx <- or_raise (np_max _W_norm) ValueError ;;
  edges <- map_M (graph_edge _W_norm var_names)
             (np_where (mask_ge _W_norm (f_mul threshold mx))) ;;
  let dot := {| graph_attr := attr; body := nodes ++ edges |} in
  match dst with
  | None => ret tt
  | Some d => emit (Render filename d)
  end ;;
  ret dot.

End Renderer.

(** ** The result store *)

(** [np.load] is called without [allow_pickle], so numpy's default
    decides whether an object array may be read: [True] up to release
    1.16.2, [False] since 1.16.3. *)
Class NumpyLoad := { allow_pickle : bool }.

Definition numpy_legacy : NumpyLoad := {| allow_pickle := true |}.
Definition numpy_current : NumpyLoad := {| allow_pickle := false |}.

Section ResultStore.
Context {F V : Type} {NP : NumpyLoad}.

(** A member of an [.npz] archive: a numeric array, or the
    zero-dimensional object array numpy pickles a dictionary into. *)
Inductive npy :=
| NpyArray (a : list (list (list F)))
| NpyObject (o : gmap string V).

(** The values [load_results] hands back. *)
Inductive pyval :=
| PyNdarray (a : npy)
| PyDict (d : gmap string V)
| PyFloat (x : F).

(** [file[key]] on the [NpzFile] that [np.load] returns: a name that is
    not in the archive raises [KeyError]; an object array is unpickled
    when pickles are allowed and raises [ValueError] otherwise. *)
Definition npz_getitem (file : gmap string npy) (key : string) : outcome npy :=
  match file !! key with
  | None => Raise (KeyError key)
  | Some (NpyArray a) => Ok (NpyArray a)
  | Some (NpyObject o) => if allow_pickle then Ok (NpyObject o) else Raise ValueError
  end.

(** [a.item()]: the single element of an array of size one. *)
Definition npy_item (a : npy) : outcome pyval :=
  match a with
  | NpyObject o => Ok (PyDict o)
  | NpyArray t =>
      match concat (concat t) with
      | [x] => Ok (PyFloat x)
      | _ => Raise ValueError
      end
  end.

(** The files of the file system that are [.npz] archives, by path;
    an archive maps the names of its members to their contents.
    [np.savez] pickles the dictionary [hparams] into an object array. *)
Definition save_results (filename dst : string) (W : list (list (list F)))
    (hparams : gmap string V) (W_submod : option (list (list (list F))))
    (fs : gmap string (gmap string npy)) : gmap string (gmap string npy) :=
  let path := (dst ++ "/" ++ filename ++ ".npz")%string in
  match W_submod with
  | None =>
      <[path := <["hparams" := NpyObject hparams]> (<["W" := NpyArray W]> ∅)]> fs
  | Some Ws =>
      <[path := <["hparams" := NpyObject hparams]>
                  (<["W_submod" := NpyArray Ws]> (<["W" := NpyArray W]> ∅))]> fs
  end.

(** Lines 198-207.  The returned tuple is the list of its components. *)
Definition load_results (src : string) (fs : gmap string (gmap string npy))
  : outcome (list pyval) :=
  match fs !! (src ++ ".npz")%string with
  | None => Raise FileNotFoundError
  | Some file =>
      match npz_getitem file "W" with
      | Raise e => Raise e
      | Ok W =>
          match npz_getitem file "hparams" with
          | Raise e => Raise e
          | Ok h =>
              match npy_item h with
              | Raise e => Raise e
              | Ok hparams =>
                  if bool_decide (is_Some (file !! "W_submod")) then
                    match npz_getitem file "W_submod" with
                    | Raise e => Raise e
                    | Ok W_submod =>
                        Ok [PyNdarray W; PyNdarray W_submod; hparams]
                    end
                  else Ok [PyNdarray W; hparams]
              end
          end
      end
  end.

End ResultStore.

(** ** Vocabulary of the statements *)

(** [s] is the edge statement of the index pair [ec = (effect, cause)]:
    from the cause's name to the effect's, with pen width five times the
    entry's magnitude relative to [mx]. *)
Definition edge_statement {F : Type} `{Scalar F} (N : list (list F))
    (var_names : list string) (mx : F) (ec : nat * nat) (s : stmt F) : Prop :=
  exists x tl hd,
    cell N ec.1 ec.2 = Some x /\
    var_names !! ec.2 = Some tl /\
    var_names !! ec.1 = Some hd /\
    s = Edge tl hd (f_mul f_five (f_div x mx)) "1".

(** The attributes [causal_graph] always sets. *)
Definition flow_attr : gmap string string :=
  <["rankdir" := "LR"]> (<["margin" := "0"]> ∅).

(** Computations that never raise the mode assertion. *)
Definition never_mode_error {F A : Type} (c : M F A) : Prop :=
  forall log, (c log).1 <> Raise (AssertionError assert_mode).

(** ** What a run displayed and wrote *)

(** The matrices passed to [plt.imshow], in order. *)
Definition displayed {F : Type} (log : list (event F)) : list (list (list F)) :=
  omap (fun ev => match ev with Imshow m => Some m | _ => None end) log.

(** The paths a run handed to [mkdir] and to [savefig], in order.  For
    a [Mkdir] event this is the directory named in the call; the
    ancestors that [parents=True] makes on the way are not listed. *)
Definition written {F : Type} (log : list (event F)) : list string :=
  omap (fun ev => match ev with
                  | Savefig path => Some path
                  | Mkdir path => Some path
                  | _ => None
                  end) log.

(** ** Sample inputs *)

(** The tensor [[[[0],[5]],[[0],[0]]]] of shape 2 x 2 x 1. *)
Definition W_sample : list (list (list float)) :=
  [[[0%float]; [5%float]]; [[0%float]; [0%float]]].
(** A tensor whose first variable acts on itself. *)
Definition W_self : list (list (list float)) :=
  [[[3%float; 4%float]; [0%float; 0%float]]; [[1%float; 0%float]; [0%float; 0%float]]].
(** [np.zeros((p, q, K))] *)
Definition np_zeros {F : Type} `{Scalar F} (p q K : nat) : list (list (list F)) :=
  replicate p (replicate q (replicate K f_zero)).
Definition names_AB : list string := ["A"; "B"].
(** The default [threshold=0.1], as the binary64 number Python reads. *)
Definition threshold_default : float := 0x1.999999999999ap-4%float.
Definition hparams_sample : gmap string nat := <["epochs" := 100]> (<["lags" := 2]> ∅).

(** ** Vocabulary of the further properties *)

(** Every run of [c] extends the log by events that satisfy [P]. *)
Definition appends {F A : Type} (P : event F -> Prop) (c : M F A) : Prop :=
  forall log, exists new, (c log).2 = log ++ new /\ Forall P new.

(** What a call of [causal_heatmap] with the given [dst] may do: it sets
    the colour minimum to zero only, calls [mkdir] on no path but [dst],
    saves below [dst] only, and never renders a graph. *)
Definition heatmap_event {F : Type} `{Scalar F} (dst : option string)
    (ev : event F) : Prop :=
  match ev with
  | Clim vmin _ => vmin = f_zero
  | Mkdir path => dst = Some path
  | Savefig path => exists d rest, dst = Some d /\ path = (d ++ rest)%string
  | Render _ _ => False
  | _ => True
  end.

(** The colour limits a run set, in order. *)
Definition colour_limits {F : Type} (log : list (event F)) : list (F * option F) :=
  omap (fun ev => match ev with Clim a b => Some (a, b) | _ => None end) log.

(** ** Vocabulary of binary64 rounding *)

Section RoundingVocabulary.
Local Open Scope Z_scope.








End RoundingVocabulary.

(** * Properties *)

(** ** The laws hold for binary64 *)

Lemma SFcompare_antisym (x y : spec_float) :
  SFcompare y x = CompOpp <$> SFcompare x y.
Proof.
  destruct x as [[]|[]| |[] mx ex], y as [[]|[]| |[] my ey]; simpl; try reflexivity;
    rewrite (Z.compare_antisym ex ey); destruct (ex ?= ey)%Z; simpl; try reflexivity;
    change (Pos.compare_cont Eq my mx) with (my ?= mx)%positive;
    change (Pos.compare_cont Eq mx my) with (mx ?= my)%positive;
    rewrite (Pos.compare_antisym mx my); destruct (mx ?= my)%positive; reflexivity.
Qed.

Lemma float_ltb_not_geb (x y : float) :
  PrimFloat.ltb x y = true -> PrimFloat.leb y x = false.
Proof.
  rewrite ltb_spec, leb_spec. unfold SFltb, SFleb.
  rewrite (SFcompare_antisym (Prim2SF x) (Prim2SF y)).
  destruct (SFcompare (Prim2SF x) (Prim2SF y)) as [[]|]; simpl; congruence.
Qed.

Lemma float_one_neq_zero : 1%float <> 0%float.
Proof.
  intros E. pose proof (f_equal (PrimFloat.eqb 1) E) as HE.
  vm_compute in HE. discriminate.
Qed.

#[export] Instance float_order : ScalarOrder float.
Proof. split; [exact float_ltb_not_geb | exact float_one_neq_zero]. Qed.

#[export] Instance float_zero : ScalarZero float.
Proof. split; reflexivity. Qed.

(** ** binary64: multiplication by 5 keeps the order *)

Section Binary64.
Local Open Scope Z_scope.

(** ** Rounding to nearest, ties to even, on integers *)




(** ** The shifts of [SpecFloat] *)







(** ** The number of binary digits *)






(** ** binary64 rounding of a positive number *)








(** ** Multiplication by 5 in binary64 *)











End Binary64.

(** ** Arrays *)

Section ArrayFacts.
Context {F : Type} `{Scalar F}.
Implicit Types (m : list (list F)) (W : list (list (list F))).

Lemma cell_Some m i j x :
  cell m i j = Some x <-> exists row, m !! i = Some row /\ row !! j = Some x.
Proof.
  unfold cell. destruct (m !! i) as [row|]; simpl; split.
  - intros Hx. exists row. done.
  - intros (row' & [= <-] & Hx). done.
  - done.
  - intros (row' & [=] & _).
Qed.

Lemma cell_linalg_norm ord W i j :
  cell (linalg_norm ord W) i j =
    vector_norm ord <$> (W !! i ≫= fun M : list (list F) => M !! j).
Proof.
  unfold cell, linalg_norm. rewrite list_lookup_fmap.
  destruct (W !! i) as [M|]; simpl; [|done].
  by rewrite list_lookup_fmap.
Qed.

Lemma linalg_norm_shape ord W n p K :
  has_shape3 W n p K -> has_shape2 (linalg_norm ord W) n p.
Proof.
  intros [Hn HW]. split.
  - unfold linalg_norm. by rewrite length_fmap.
  - unfold linalg_norm. apply Forall_fmap. eapply Forall_impl; [exact HW|].
    intros M [HM _]. simpl. by rewrite length_fmap.
Qed.

Lemma shape2_row_length m r c i row :
  has_shape2 m r c -> m !! i = Some row -> length row = c.
Proof.
  intros [_ Hm] Hrow. rewrite Forall_forall in Hm. apply Hm.
  eapply list_elem_of_lookup_2. exact Hrow.
Qed.

Lemma cell_is_Some m r c i j :
  has_shape2 m r c -> i < r -> j < c -> is_Some (cell m i j).
Proof.
  intros Hm Hi Hj. pose proof Hm as [Hr _]. rewrite <- Hr in Hi.
  destruct (lookup_lt_is_Some_2 m i Hi) as [row Hrow].
  rewrite <- (shape2_row_length m r c i row Hm Hrow) in Hj.
  destruct (lookup_lt_is_Some_2 row j Hj) as [x Hx].
  exists x. apply cell_Some. eauto.
Qed.

Lemma cell_lt m r c i j x :
  has_shape2 m r c -> cell m i j = Some x -> i < r /\ j < c.
Proof.
  intros Hm (row & Hrow & Hx)%cell_Some. pose proof Hm as [Hr _]. split.
  - rewrite <- Hr. eapply lookup_lt_Some. exact Hrow.
  - rewrite <- (shape2_row_length m r c i row Hm Hrow).
    eapply lookup_lt_Some. exact Hx.
Qed.

(** The diagonal of a matrix whose rows are long enough. *)
Lemma diag_from_lookup m i k :
  Forall (fun row => i + length m <= length row) m ->
  diag_from i m !! k = cell m k (i + k).
Proof.
  revert i k. induction m as [|row rest IH]; intros i k Hlen.
  - done.
  - apply Forall_cons in Hlen as [Hrow Hrest]. simpl in Hrow. simpl.
    destruct (lookup_lt_is_Some_2 row i ltac:(lia)) as [x Hx]. rewrite Hx.
    destruct k as [|k].
    + unfold cell. simpl. by rewrite Nat.add_0_r.
    + simpl. rewrite IH.
      * unfold cell. simpl. replace (i + S k) with (S (i + k)) by lia. done.
      * eapply Forall_impl; [exact Hrest|]. simpl. intros; lia.
Qed.

Lemma np_diag_lookup m p k :
  has_shape2 m p p -> np_diag m !! k = cell m k k.
Proof.
  intros [Hp Hm]. unfold np_diag. rewrite diag_from_lookup; [done|].
  eapply Forall_impl; [exact Hm|]. simpl. intros; lia.
Qed.

Lemma np_all_zero_spec (d : list F) :
  np_all_zero d = true <-> forall k x, d !! k = Some x -> f_eqb x f_zero = true.
Proof.
  unfold np_all_zero. rewrite forallb_forall. split.
  - intros Hd k x Hk. apply Hd. apply list_elem_of_In.
    eapply list_elem_of_lookup_2. exact Hk.
  - intros Hd x [k Hk]%list_elem_of_In%list_elem_of_lookup_1. eauto.
Qed.

(** The characterisation of [_has_autocorrelation] on a square tensor. *)
Lemma has_autocorrelation_false W p K :
  has_shape3 W p p K ->
  _has_autocorrelation W = false <->
  forall i x, cell (linalg_norm None W) i i = Some x -> f_eqb x f_zero = true.
Proof.
  intros HW. pose proof (linalg_norm_shape None W p p K HW) as HN.
  unfold _has_autocorrelation. cbv zeta. rewrite negb_false_iff, np_all_zero_spec.
  split; intros Hd i x Hx.
  - apply (Hd i). by rewrite (np_diag_lookup _ p).
  - apply (Hd i). by rewrite <- (np_diag_lookup _ p).
Qed.

Lemma np_all_zero_false (d : list F) :
  np_all_zero d = false <-> exists k x, d !! k = Some x /\ f_eqb x f_zero = false.
Proof.
  unfold np_all_zero. induction d as [|y d IH]; simpl.
  - split; [done|]. intros (k & x & Hk & _). done.
  - rewrite andb_false_iff, IH. split.
    + intros [Hy|(k & x & Hk & Hx)].
      * exists 0, y. done.
      * exists (S k), x. done.
    + intros ([|k] & x & Hk & Hx); simpl in Hk.
      * left. congruence.
      * right. eauto.
Qed.

Lemma has_autocorrelation_true W p K :
  has_shape3 W p p K ->
  _has_autocorrelation W = true <->
  exists i x, cell (linalg_norm None W) i i = Some x /\ f_eqb x f_zero = false.
Proof.
  intros HW. pose proof (linalg_norm_shape None W p p K HW) as HN.
  unfold _has_autocorrelation. cbv zeta. rewrite negb_true_iff, np_all_zero_false.
  split; intros (i & x & Hx & Hz); exists i, x; split; try done.
  - by rewrite <- (np_diag_lookup _ p).
  - by rewrite (np_diag_lookup _ p).
Qed.
End ArrayFacts.

(** ** [np.where] and index assignment *)

Lemma where_row_elem (row : list bool) (j j' : nat) :
  j' ∈ where_row j row <-> exists k, j' = j + k /\ row !! k = Some true.
Proof.
  revert j. induction row as [|b row IH]; intros j; simpl.
  - split; [by intros ?%elem_of_nil|]. intros (k & _ & Hk). done.
  - rewrite elem_of_app, IH. split.
    + intros [Hb|(k & -> & Hk)].
      * destruct b; [|by apply elem_of_nil in Hb].
        apply list_elem_of_singleton in Hb as ->. exists 0. split; [lia|done].
      * exists (S k). split; [lia|done].
    + intros ([|k] & -> & Hk); simpl in Hk.
      * left. injection Hk as ->. rewrite Nat.add_0_r. apply list_elem_of_singleton. done.
      * right. exists k. split; [lia|done].
Qed.

Lemma where_row_NoDup (row : list bool) (j : nat) : NoDup (where_row j row).
Proof.
  revert j. induction row as [|b row IH]; intros j; simpl.
  - constructor.
  - apply NoDup_app. split; [|split].
    + destruct b; [apply NoDup_singleton|constructor].
    + intros x Hx (k & -> & _)%where_row_elem.
      destruct b; [|by apply elem_of_nil in Hx].
      apply list_elem_of_singleton in Hx. lia.
    + apply IH.
Qed.

Lemma where_from_elem (mask : list (list bool)) (i a b : nat) :
  (a, b) ∈ where_from i mask <->
  exists k row, a = i + k /\ mask !! k = Some row /\ row !! b = Some true.
Proof.
  revert i. induction mask as [|row mask IH]; intros i; simpl.
  - split; [by intros ?%elem_of_nil|]. intros (k & r & _ & Hk & _). done.
  - rewrite elem_of_app, IH, list_elem_of_fmap. split.
    + intros [(j & [= -> ->] & (k & Hj & Hk)%where_row_elem)|(k & r & -> & Hk & Hb)].
      * exists 0, row. simpl in Hj. subst j. split; [lia|done].
      * exists (S k), r. split; [lia|done].
    + intros ([|k] & r & -> & Hk & Hb); simpl in Hk.
      * left. injection Hk as ->. exists b. split; [by rewrite Nat.add_0_r|].
        apply where_row_elem. exists b. done.
      * right. exists k, r. split; [lia|done].
Qed.

Lemma where_from_NoDup (mask : list (list bool)) (i : nat) : NoDup (where_from i mask).
Proof.
  revert i. induction mask as [|row mask IH]; intros i; simpl.
  - constructor.
  - apply NoDup_app. split; [|split].
    + apply NoDup_fmap_2; [|apply where_row_NoDup]. intros x y [=]. done.
    + intros [a b] (j & [= -> ->] & _)%list_elem_of_fmap (k & r & Hk & _)%where_from_elem.
      lia.
    + apply IH.
Qed.

Lemma np_where_spec (mask : list (list bool)) (i j : nat) :
  (i, j) ∈ np_where mask <->
  mask !! i ≫= (fun row : list bool => row !! j) = Some true.
Proof.
  unfold np_where. rewrite where_from_elem. split.
  - intros (k & row & -> & Hk & Hb). simpl. by rewrite Hk.
  - destruct (mask !! i) as [row|] eqn:Hrow; simpl; [|done].
    intros Hb. exists i, row. done.
Qed.

Lemma np_where_NoDup (mask : list (list bool)) : NoDup (np_where mask).
Proof. apply where_from_NoDup. Qed.

Section Assignment.
Context {F : Type} `{Scalar F}.
Implicit Types (m : list (list F)).

Lemma np_where_ge m c i j :
  (i, j) ∈ np_where (mask_ge m c) <->
  exists x, cell m i j = Some x /\ f_leb c x = true.
Proof.
  rewrite np_where_spec. unfold mask_ge, cell. rewrite list_lookup_fmap.
  destruct (m !! i) as [row|]; simpl.
  - rewrite list_lookup_fmap. destruct (row !! j) as [x|]; simpl.
    + split; [intros [= Hx]; eauto|]. intros (y & [= <-] & Hy). by rewrite Hy.
    + split; [done|]. intros (y & [=] & _).
  - split; [done|]. intros (y & [=] & _).
Qed.

Lemma np_where_lt m c i j :
  (i, j) ∈ np_where (mask_lt m c) <->
  exists x, cell m i j = Some x /\ f_ltb x c = true.
Proof.
  rewrite np_where_spec. unfold mask_lt, cell. rewrite list_lookup_fmap.
  destruct (m !! i) as [row|]; simpl.
  - rewrite list_lookup_fmap. destruct (row !! j) as [x|]; simpl.
    + split; [intros [= Hx]; eauto|]. intros (y & [= <-] & Hy). by rewrite Hy.
    + split; [done|]. intros (y & [=] & _).
  - split; [done|]. intros (y & [=] & _).
Qed.

Lemma cell_set_cell v m a b i j :
  cell (set_cell v m (a, b)) i j =
    if decide ((i, j) = (a, b)) then (fun _ => v) <$> cell m i j else cell m i j.
Proof.
  unfold set_cell, cell. simpl.
  destruct (decide (i = a)) as [->|Hi].
  - rewrite list_lookup_alter_eq. destruct (m !! a) as [row|]; simpl.
    + destruct (decide (j = b)) as [->|Hj].
      * rewrite decide_True by done.
        destruct (row !! b) as [x|] eqn:Hx; simpl.
        -- apply list_lookup_insert_eq. eapply lookup_lt_Some. exact Hx.
        -- apply lookup_ge_None. rewrite length_insert. by apply lookup_ge_None.
      * rewrite decide_False by congruence.
        apply list_lookup_insert_ne. done.
    + by destruct (decide _).
  - rewrite list_lookup_alter_ne by done.
    rewrite decide_False by congruence. done.
Qed.

Lemma cell_set_cells v m (idx : list (nat * nat)) i j :
  cell (set_cells m idx v) i j =
    if decide ((i, j) ∈ idx) then (fun _ => v) <$> cell m i j else cell m i j.
Proof.
  unfold set_cells. revert m. induction idx as [|[a b] idx IH]; intros m.
  - case_decide as Hin; [by apply elem_of_nil in Hin|done].
  - cbn [foldl]. rewrite IH, cell_set_cell.
    destruct (decide ((i, j) = (a, b))) as [E|E],
      (decide ((i, j) ∈ idx)) as [Hin|Hin],
      (decide ((i, j) ∈ (a, b) :: idx)) as [Hc|Hc];
      try done; try (by destruct (cell m i j));
      try (by apply elem_of_cons in Hc as [?|?]);
      exfalso; apply Hc; apply elem_of_cons; auto.
Qed.

Lemma set_cells_shape v m idx r c :
  has_shape2 m r c -> has_shape2 (set_cells m idx v) r c.
Proof.
  unfold set_cells. revert m. induction idx as [|[a b] idx IH]; intros m Hm; simpl.
  - done.
  - apply IH. destruct Hm as [Hr Hm]. split.
    + unfold set_cell. by rewrite length_alter.
    + unfold set_cell. simpl. apply Forall_alter; [done|].
      intros row Hrow Hlen. by rewrite length_insert.
Qed.
End Assignment.

(** ** Runs of the monad *)

Lemma bind_ok {F A B : Type} (m : M F A) (k : A -> M F B) log a log' :
  m log = (Ok a, log') -> bind m k log = k a log'.
Proof. unfold bind. by intros ->. Qed.

Lemma bind_raise {F A B : Type} (m : M F A) (k : A -> M F B) log e log' :
  m log = (Raise e, log') -> bind m k log = (Raise e, log').
Proof. unfold bind. by intros ->. Qed.

Lemma or_raise_Some {F A : Type} (o : option A) (e : exn) (a : A) (log : list (event F)) :
  o = Some a -> or_raise o e log = (Ok a, log).
Proof. by intros ->. Qed.

(** A loop whose body neither raises nor touches the log. *)
Lemma map_M_pure {F A B : Type} (f : A -> M F B) (R : A -> B -> Prop)
    (l : list A) (log : list (event F)) :
  (forall a, a ∈ l -> exists b, f a log = (Ok b, log) /\ R a b) ->
  exists bs, map_M f l log = (Ok bs, log) /\ Forall2 R l bs.
Proof.
  induction l as [|a l IH]; intros Hf.
  - exists []. split; [done|constructor].
  - destruct (Hf a) as (b & Hb & HR); [by left|].
    destruct IH as (bs & Hbs & HRs); [intros a' Ha'; apply Hf; by right|].
    exists (b :: bs). split; [|by constructor].
    cbn [map_M]. rewrite (bind_ok _ _ _ _ _ Hb), (bind_ok _ _ _ _ _ Hbs). done.
Qed.

Section GraphFacts.
Context {F : Type} `{Scalar F}.
Implicit Types (m : list (list F)) (W : list (list (list F))).

Lemma np_max_is_Some m r c :
  has_shape2 m r c -> 1 <= r -> 1 <= c -> is_Some (np_max m).
Proof.
  intros [Hr Hm] Hr1 Hc1. unfold np_max.
  destruct m as [|row rest]; [simpl in Hr; lia|].
  apply Forall_cons in Hm as [Hrow _].
  destruct row as [|x row]; [simpl in Hrow; lia|].
  simpl. eauto.
Qed.

Lemma graph_edge_ok m (names : list string) mx e c x tl hd (log : list (event F)) :
  cell m e c = Some x -> np_max m = Some mx ->
  names !! c = Some tl -> names !! e = Some hd ->
  graph_edge m names (e, c) log = (Ok (Edge tl hd (f_mul f_five (f_div x mx)) "1"), log).
Proof.
  intros Hx Hmx Htl Hhd. unfold graph_edge. simpl.
  rewrite (bind_ok _ _ _ _ _ (or_raise_Some _ _ _ _ Hx)).
  rewrite (bind_ok _ _ _ _ _ (or_raise_Some _ _ _ _ Hmx)).
  rewrite (bind_ok _ _ _ _ _ (or_raise_Some _ _ _ _ Htl)).
  rewrite (bind_ok _ _ _ _ _ (or_raise_Some _ _ _ _ Hhd)).
  done.
Qed.

(** What [causal_graph] returns on a square tensor with enough names. *)
Lemma causal_graph_spec W p K (names : list string) (t : F) u dst fn
    (log : list (event F)) :
  has_shape3 W p p K -> 1 <= p -> p <= length names ->
  let N := linalg_norm None W in
  exists mx sel edges,
    np_max N = Some mx /\
    causal_graph W names t u dst fn log =
      (Ok {| graph_attr := if _has_autocorrelation W then flow_attr
                           else <["layout" := "circo"]> flow_attr;
             body := ((fun var => Node var var) <$> names) ++ edges |},
       log ++ match dst with Some d => [Render fn d] | None => [] end) /\
    NoDup sel /\
    (forall e c, (e, c) ∈ sel <->
                 exists x, cell N e c = Some x /\ f_leb (f_mul t mx) x = true) /\
    Forall2 (edge_statement N names mx) sel edges.
Proof.
  intros HW Hp Hnames N.
  pose proof (linalg_norm_shape None W p p K HW) as HN. fold N in HN.
  destruct (np_max_is_Some N p p HN Hp Hp) as [mx Hmx].
  set (sel := np_where (mask_ge N (f_mul t mx))).
  destruct (map_M_pure (graph_edge N names) (edge_statement N names mx) sel
              (log)) as (edges & Hedges & HF2).
  { intros [e c] (x & Hx & _)%np_where_ge.
    destruct (cell_lt N p p e c x HN Hx) as [He Hc].
    destruct (lookup_lt_is_Some_2 names c ltac:(lia)) as [tl Htl].
    destruct (lookup_lt_is_Some_2 names e ltac:(lia)) as [hd Hhd].
    eexists. split; [by apply (graph_edge_ok N names mx e c x tl hd)|].
    exists x, tl, hd. done. }
  exists mx, sel, edges. split; [done|]. split; [|split; [|split]].
  - unfold causal_graph. fold N. cbv zeta.
    rewrite (bind_ok _ _ _ _ _ (or_raise_Some _ _ _ _ Hmx)).
    fold sel. rewrite (bind_ok _ _ _ _ _ Hedges).
    unfold flow_attr. destruct (_has_autocorrelation W), dst; simpl; try done.
    all: by rewrite app_nil_r.
  - apply np_where_NoDup.
  - intros e c. apply np_where_ge.
  - done.
Qed.
End GraphFacts.

(** ** The autocorrelation detector *)

(** C2. On a square tensor, [_has_autocorrelation] answers true exactly
    when some diagonal entry of the matrix of 2-norms over the lag axis
    is non-zero, and false exactly when every diagonal entry is zero;
    the diagonal has an entry for every variable. *)
Theorem has_autocorrelation_iff_nonzero_diagonal {F : Type} `{Scalar F}
    (W : list (list (list F))) (p K : nat) :
  has_shape3 W p p K ->
  let N := linalg_norm None W in
  (forall i, i < p -> is_Some (cell N i i)) /\
  (_has_autocorrelation W = true <->
     exists i x, i < p /\ cell N i i = Some x /\ f_eqb x f_zero = false) /\
  (_has_autocorrelation W = false <->
     forall i x, i < p -> cell N i i = Some x -> f_eqb x f_zero = true).
Proof.
  intros HW N. pose proof (linalg_norm_shape None W p p K HW) as HN. fold N in HN.
  split; [|split].
  - intros i Hi. by apply (cell_is_Some N p p).
  - rewrite (has_autocorrelation_true W p K HW). fold N.
    split; intros (i & x & Hx); exists i, x.
    + destruct Hx as [Hx Hz]. split; [|done]. by destruct (cell_lt N p p i i x HN Hx).
    + tauto.
  - rewrite (has_autocorrelation_false W p K HW). fold N.
    split; intros Hd i x.
    + intros _ Hx. by apply (Hd i).
    + intros Hx. apply (Hd i x); [|done]. by destruct (cell_lt N p p i i x HN Hx).
Qed.

Lemma has_autocorrelation_witness :
  has_shape3 W_self 2 2 2 /\ _has_autocorrelation W_self = true /\
  exists i x, i < 2 /\ cell (linalg_norm None W_self) i i = Some x /\
              f_eqb x f_zero = false.
Proof.
  assert (has_shape3 W_self 2 2 2) as HW.
  { split; [reflexivity|]. repeat constructor. }
  split; [exact HW|].
  destruct (has_autocorrelation_iff_nonzero_diagonal W_self 2 2 HW) as (_ & Ht & _).
  split; [reflexivity|]. apply Ht. reflexivity.
Defined.

(** ** The causal graph *)




(** C5. On a square tensor with enough names, the returned graph always
    flows left to right; when every diagonal entry of the 2-norm matrix
    is zero (no autocorrelation) its layout is 'circo', and when some
    diagonal entry is non-zero no layout is set, so graphviz keeps its
    default.  This holds for every value of [use_circo_layout], in
    particular for [None]. *)
Theorem causal_graph_layout {F : Type} `{Scalar F}
    (W : list (list (list F))) (p K : nat) (names : list string) (t : F)
    (u : option bool) (dst : option string) (fn : string)
    (log : list (event F)) :
  has_shape3 W p p K -> 1 <= p -> p <= length names ->
  let N := linalg_norm None W in
  exists g log',
    causal_graph W names t u dst fn log = (Ok g, log') /\
    graph_attr g !! "rankdir" = Some "LR" /\
    ((forall i x, i < p -> cell N i i = Some x -> f_eqb x f_zero = true) ->
       graph_attr g !! "layout" = Some "circo") /\
    ((exists i x, i < p /\ cell N i i = Some x /\ f_eqb x f_zero = false) ->
       graph_attr g !! "layout" = None).
Proof.
  intros HW Hp Hnames N.
  pose proof (linalg_norm_shape None W p p K HW) as HN. fold N in HN.
  destruct (causal_graph_spec W p K names t u dst fn log HW Hp Hnames)
    as (mx & sel & edges & Hmx & Hrun & _).
  eexists _, _. split; [exact Hrun|]. cbn [graph_attr].
  split; [|split].
  - by destruct (_has_autocorrelation W).
  - intros Hzero.
    assert (_has_autocorrelation W = false) as ->; [|done].
    apply (has_autocorrelation_false W p K HW). fold N. intros i x Hx.
    apply (Hzero i x); [|done]. by destruct (cell_lt N p p i i x HN Hx).
  - intros (i & x & _ & Hx & Hz).
    assert (_has_autocorrelation W = true) as ->; [|done].
    apply (has_autocorrelation_true W p K HW). eauto.
Qed.

Lemma causal_graph_layout_witness :
  exists g log',
    causal_graph W_sample names_AB threshold_default None None "graph" [] = (Ok g, log') /\
    graph_attr g !! "rankdir" = Some "LR" /\
    graph_attr g !! "layout" = Some "circo".
Proof.
  destruct (causal_graph_layout W_sample 2 1 names_AB threshold_default
              None None "graph" []) as (g & log' & Hrun & Hlr & Hcirco & _).
  - split; [reflexivity|]. repeat constructor.
  - lia.
  - simpl. lia.
  - exists g, log'. split; [exact Hrun|]. split; [exact Hlr|].
    apply Hcirco. intros [|[|i]] x Hi; [| |lia].
    + intros [= <-]. reflexivity.
    + intros [= <-]. reflexivity.
Defined.

(** C9. The graph [causal_graph] builds, and everything else the call
    does, is the same for any two values of [use_circo_layout]: the
    argument is accepted and never read. *)
Theorem causal_graph_ignores_use_circo_layout {F : Type} `{Scalar F}
    (W : list (list (list F))) (names : list string) (t : F)
    (u1 u2 : option bool) (dst : option string) (fn : string)
    (log : list (event F)) :
  causal_graph W names t u1 dst fn log = causal_graph W names t u2 dst fn log.
Proof. reflexivity. Qed.
(** ** Round trips through the result store *)

Lemma string_append_assoc (a b c : string) :
  ((a ++ b) ++ c = a ++ (b ++ c))%string.
Proof.
  induction a as [|ch a IH]; [done|].
  change (String ch ((a ++ b) ++ c) = String ch (a ++ (b ++ c)))%string.
  by rewrite IH.
Qed.

Section StoreFacts.
Context {F V : Type}.
Implicit Types (W : list (list (list F))) (hparams : gmap string V).
Implicit Types (fs : gmap string (gmap string (@npy F V))).

(** The archive is written where [load_results] looks for it. *)
Lemma saved_path (filename dst : string) :
((dst ++ "/" ++ filename) ++ ".npz" = dst ++ "/" ++ filename ++ ".npz")%string.
Proof. by rewrite !string_append_assoc. Qed.

(** With a numpy that unpickles by default (up to 1.16.2), loading the
  archive [save_results] wrote at [dst/filename] returns the saved
  tensor and the saved mapping, and the secondary tensor when one was
  saved: what the docstring of [load_results] promises. *)
Lemma save_load_roundtrip_legacy (filename dst : string) W hparams
  (W_submod : option (list (list (list F)))) fs :
load_results (NP := numpy_legacy) (dst ++ "/" ++ filename)%string
  (save_results filename dst W hparams W_submod fs) =
  Ok match W_submod with
     | None => [PyNdarray (NpyArray W); PyDict hparams]
     | Some Ws => [PyNdarray (NpyArray W); PyNdarray (NpyArray Ws); PyDict hparams]
     end.
Proof.
unfold load_results, save_results. rewrite saved_path.
destruct W_submod as [Ws|]; rewrite lookup_insert_eq; reflexivity.
Qed.

(** C1. With numpy's default since 1.16.3, the round trip fails for
  every input: [save_results] stores [hparams] as a pickled object
  array, [load_results] opens the archive without [allow_pickle=True],
  and reading the member 'hparams' raises [ValueError], whether or not
  a [W_submod] was saved.  No tuple is returned. *)
Theorem save_load_raises_without_pickle (filename dst : string) W hparams
  (W_submod : option (list (list (list F)))) fs :
load_results (NP := numpy_current) (dst ++ "/" ++ filename)%string
  (save_results filename dst W hparams W_submod fs) = Raise ValueError.
Proof.
unfold load_results, save_results. rewrite saved_path.
destruct W_submod as [Ws|]; rewrite lookup_insert_eq; reflexivity.
Qed.

Context {NP : NumpyLoad}.

(** C10. Whenever [load_results] returns, under either default of
  numpy, the tuple is made of the members read from the archive at
  [src + '.npz'] in this order: 'W', then 'W_submod', then the item of
  'hparams' when the archive has a member 'W_submod'; 'W', then the
  item of 'hparams' when it has none.  Conversely it returns whenever
  those reads succeed. *)
Theorem load_results_order (src : string) fs (tuple : list (@pyval F V)) :
load_results src fs = Ok tuple <->
exists (file : gmap string npy) (w hm : npy) (h : pyval),
  fs !! (src ++ ".npz")%string = Some file /\
  npz_getitem file "W" = Ok w /\
  npz_getitem file "hparams" = Ok hm /\
  npy_item hm = Ok h /\
  match file !! "W_submod" with
  | Some _ => exists ws : npy, npz_getitem file "W_submod" = Ok ws /\
                               tuple = [PyNdarray w; PyNdarray ws; h]
  | None => tuple = [PyNdarray w; h]
  end.
Proof.
unfold load_results. split.
- destruct (fs !! (src ++ ".npz")%string) as [file|]; [|done].
  destruct (npz_getitem file "W") as [w|] eqn:Hw; [|done].
  destruct (npz_getitem file "hparams") as [hm|] eqn:Hhm; [|done].
  destruct (npy_item hm) as [h|] eqn:Hh; [|done].
  intros Hret. exists file, w, hm, h. repeat (split; [done|]).
  destruct (file !! "W_submod") as [m|] eqn:Hm.
  + rewrite bool_decide_eq_true_2 in Hret by eauto.
    destruct (npz_getitem file "W_submod") as [ws|]; [|done].
    exists ws. split; congruence.
  + rewrite bool_decide_eq_false_2 in Hret by (by intros [? ?]). congruence.
- intros (file & w & hm & h & -> & -> & -> & -> & Hsub).
  destruct (file !! "W_submod") as [m|] eqn:Hm.
  + rewrite bool_decide_eq_true_2 by eauto.
    destruct Hsub as (ws & -> & ->). done.
  + rewrite bool_decide_eq_false_2 by (by intros [? ?]). by subst.
Qed.
End StoreFacts.

Lemma load_results_order_witness :
  load_results (NP := numpy_current) "out/run"
    (<["out/run.npz" :=
         <["hparams" := NpyArray [[[2%float]]]]>
           (<["W_submod" := NpyArray W_self]> (<["W" := NpyArray W_sample]> ∅))]>
       (∅ : gmap string (gmap string (@npy float nat)))) =
    Ok [PyNdarray (NpyArray W_sample); PyNdarray (NpyArray W_self); PyFloat 2%float].
Proof.
  apply load_results_order.
  eexists _, (NpyArray W_sample), (NpyArray [[[2%float]]]), (PyFloat 2%float).
  split; [apply lookup_insert_eq|].
  split; [reflexivity|]. split; [reflexivity|]. split; [reflexivity|].
  exists (NpyArray W_self). split; reflexivity.
Defined.

(** ** The mode check of [causal_heatmap] *)

Lemma nme_ret {F A : Type} (a : A) : never_mode_error (@ret F A a).
Proof. intros log. done. Qed.

Lemma nme_emit {F : Type} (ev : event F) : never_mode_error (emit ev).
Proof. intros log. done. Qed.

Lemma nme_raise {F A : Type} (e : exn) :
  e <> AssertionError assert_mode -> never_mode_error (@raise F A e).
Proof. intros He log. simpl. congruence. Qed.

Lemma nme_or_raise {F A : Type} (o : option A) (e : exn) :
  e <> AssertionError assert_mode -> never_mode_error (@or_raise F A o e).
Proof. intros He. destruct o; [apply nme_ret|by apply nme_raise]. Qed.

Lemma nme_assert_dst {F : Type} (b : bool) :
  never_mode_error (@py_assert F b assert_dst).
Proof. destruct b; [apply nme_ret|by apply nme_raise]. Qed.

Lemma nme_bind {F A B : Type} (m : M F A) (k : A -> M F B) :
  never_mode_error m -> (forall a, never_mode_error (k a)) ->
  never_mode_error (bind m k).
Proof.
  intros Hm Hk log. unfold bind. specialize (Hm log).
  destruct (m log) as [[a|e] log']; simpl in *; [apply Hk|].
  intros [= ->]. by apply Hm.
Qed.

Lemma nme_for_each {F A : Type} (l : list A) (body : A -> M F unit) :
  (forall a, never_mode_error (body a)) -> never_mode_error (for_each l body).
Proof.
  intros Hb. induction l as [|a l IH]; simpl.
  - apply nme_ret.
  - apply nme_bind; [apply Hb|]. intros _. exact IH.
Qed.

Create HintDb nme discriminated.
#[export] Hint Resolve nme_ret nme_emit nme_assert_dst nme_for_each : nme.
#[export] Hint Extern 1 (never_mode_error (bind _ _)) =>
  apply nme_bind; [|intros ?] : nme.
#[export] Hint Extern 1 (never_mode_error (raise _)) =>
  apply nme_raise; discriminate : nme.
#[export] Hint Extern 1 (never_mode_error (or_raise _ _)) =>
  apply nme_or_raise; discriminate : nme.
#[export] Hint Extern 2 (never_mode_error (match ?x with _ => _ end)) =>
  destruct x : nme.

Section ModeCheck.
Context {F : Type} `{Scalar F} {PLT : Pyplot}.

Lemma nme_ticks (locs : list nat) (labels : tick_labels) :
never_mode_error (plt_xticks (F := F) locs labels) /\
never_mode_error (plt_yticks (F := F) locs labels).
Proof.
unfold plt_xticks, plt_yticks.
destruct (ticks_accepted _ _); split; auto with nme.
Qed.

Lemma nme_prepare_dst (d : string) : never_mode_error (prepare_dst (F := F) d).
Proof. unfold prepare_dst. auto 10 with nme. Qed.

Lemma nme_plot_overall p (m : list (list F)) names dst fh ext :
never_mode_error (plot_overall p m names dst fh ext).
Proof.
unfold plot_overall.
pose proof (nme_ticks (range p) (TickNames names)) as [Hx Hy].
pose proof nme_prepare_dst.
repeat (apply nme_bind; [by auto with nme|intros ?]).
destruct dst as [d|]; [|auto with nme].
apply nme_bind; [done|intros ?]. destruct fh; auto with nme.
Qed.

Lemma nme_plot_ind p K (N : list (list F)) names dst fh ext var_row :
never_mode_error (plot_ind p K N names dst fh ext var_row).
Proof.
unfold plot_ind. cbv zeta.
pose proof (nme_ticks (range p) (TickNames names)) as [Hx _].
pose proof (nme_ticks (range K) (TickNumbers (seq 1 K))) as [_ Hy].
pose proof nme_prepare_dst.
repeat (apply nme_bind; [by auto with nme|intros ?]).
apply nme_emit.
Qed.

(** C7. A mode outside {'joint', 'ind', 'joint_threshold'} makes
  [causal_heatmap] raise the assertion of its first line, with nothing
  plotted, printed or written (the log is unchanged); a mode in that
  set never raises that assertion. *)
Theorem causal_heatmap_mode_check (W : list (list (list F)))
  (names : list string) (mode : string) (ord : option norm_ord) (t : F)
  (dst fh : option string) (ext : string) (log : list (event F)) :
(mode ∉ heatmap_modes ->
   causal_heatmap W names mode ord t dst fh ext log =
     (Raise (AssertionError assert_mode), log)) /\
(mode ∈ heatmap_modes ->
   (causal_heatmap W names mode ord t dst fh ext log).1 <>
     Raise (AssertionError assert_mode)).
Proof.
split; intros Hmode; unfold causal_heatmap.
- rewrite bool_decide_eq_false_2 by done. reflexivity.
- rewrite bool_decide_eq_true_2 by done.
  change (py_assert true assert_mode) with (@ret F unit tt).
  revert log. apply nme_bind; [apply nme_ret|intros _].
  apply nme_bind; [unfold shape_of_first; auto with nme|intros pK].
  cbv zeta. apply nme_bind; [apply nme_emit|intros _].
  repeat case_bool_decide.
  + apply nme_plot_overall.
  + apply nme_bind; [|intros ?; apply nme_plot_overall].
    unfold joint_threshold_matrix. auto 10 with nme.
  + apply nme_for_each. intros ?. apply nme_plot_ind.
  + apply nme_ret.
Qed.
End ModeCheck.

(** ** The thresholded heatmap *)

Lemma displayed_app {F : Type} (l1 l2 : list (event F)) :
  displayed (l1 ++ l2) = displayed l1 ++ displayed l2.
Proof. apply omap_app. Qed.

Lemma written_app {F : Type} (l1 l2 : list (event F)) :
  written (l1 ++ l2) = written l1 ++ written l2.
Proof. apply omap_app. Qed.

(** Unfolds a run of straight-line plotting code into its cases. *)
Ltac run_cases :=
  unfold prepare_dst, plt_xticks, plt_yticks;
  unfold bind, emit, ret, raise, or_raise, py_assert;
  repeat (match goal with
          | |- context [match ?x with _ => _ end] =>
              lazymatch x with
              | context [match _ with _ => _ end] => fail
              | _ => destruct x eqn:?
              end
          end; simpl).

Section Heatmap.
Context {F : Type} `{Scalar F} {PLT : Pyplot}.
Implicit Types (N m : list (list F)).

(** Lines 74-79, cell by cell. *)
Lemma joint_threshold_matrix_cells N (t mx : F) (log : list (event F)) :
np_max N = Some mx ->
exists m,
  joint_threshold_matrix N t log = (Ok m, log) /\
  (forall r c, has_shape2 N r c -> has_shape2 m r c) /\
  forall i j,
    cell m i j =
      (fun x => if f_ltb x (f_mul t mx) then f_zero
                else if f_leb (f_mul t mx) x then f_one else x) <$> cell N i j.
Proof.
intros Hmx. eexists. split; [|split].
- unfold joint_threshold_matrix.
  rewrite (bind_ok _ _ _ _ _ (or_raise_Some _ _ _ _ Hmx)).
  rewrite (bind_ok _ _ _ _ _ (or_raise_Some _ _ _ _ Hmx)).
  reflexivity.
- intros r c HN. by do 2 apply set_cells_shape.
- intros i j. rewrite !cell_set_cells.
  destruct (cell N i j) as [x|] eqn:Hx; simpl.
  + destruct (f_ltb x (f_mul t mx)) eqn:Hlt.
    * rewrite decide_True by (apply np_where_lt; eauto).
      by destruct (decide _).
    * rewrite decide_False.
      2:{ intros (y & Hy & Hlt')%np_where_lt. congruence. }
      destruct (f_leb (f_mul t mx) x) eqn:Hle.
      -- rewrite decide_True by (apply np_where_ge; eauto). done.
      -- rewrite decide_False; [done|].
         intros (y & Hy & Hle')%np_where_ge. congruence.
  + repeat (destruct (decide _); simpl); reflexivity.
Qed.

(** [plot_overall] shows exactly its matrix, whatever happens next. *)
Lemma plot_overall_displayed p m (names : list string) dst fh ext
  (log : list (event F)) :
exists res log',
  plot_overall p m names dst fh ext log = (res, log') /\
  displayed log' = displayed log ++ [m].
Proof.
unfold plot_overall. run_cases; eexists _, _; (split; [reflexivity|]);
  rewrite ?displayed_app; simpl; by rewrite ?app_nil_r.
Qed.

End Heatmap.



(** ** The all-zero tensor *)

Section Zeros.
Context {F : Type} `{Scalar F} `{!ScalarZero F} `{!ScalarOrder F} {PLT : Pyplot}.

Lemma np_sum_zeros (x : list F) : Forall (fun v => v = f_zero) x -> np_sum x = f_zero.
Proof.
unfold np_sum. induction 1 as [|v x -> _ IH]; simpl; [done|].
by rewrite f_add_zero.
Qed.

Lemma vector_norm_zeros ord (K : nat) :
vector_norm ord (replicate K (f_zero : F)) = f_zero.
Proof.
assert (forall g : F -> F, g f_zero = f_zero ->
          np_sum (g <$> replicate K f_zero) = f_zero) as Hsum.
{ intros g Hg. apply np_sum_zeros. rewrite fmap_replicate, Hg.
  apply Forall_replicate. done. }
destruct ord as [[]|]; simpl.
- apply Hsum, f_abs_zero.
- rewrite Hsum by apply f_mul_zero. apply f_sqrt_zero.
- rewrite Hsum by apply f_mul_zero. apply f_sqrt_zero.
Qed.

Lemma linalg_norm_zeros ord (p q K : nat) :
linalg_norm ord (np_zeros p q K) = replicate p (replicate q (f_zero : F)).
Proof.
unfold linalg_norm, np_zeros.
by rewrite !fmap_replicate, vector_norm_zeros.
Qed.

Lemma cell_replicate (v : F) (p q i j : nat) :
i < p -> j < q -> cell (replicate p (replicate q v)) i j = Some v.
Proof.
intros Hi Hj. unfold cell. rewrite lookup_replicate_2 by done. simpl.
by apply lookup_replicate_2.
Qed.

Lemma np_max_zeros (p q : nat) :
1 <= p -> 1 <= q -> np_max (replicate p (replicate q (f_zero : F))) = Some f_zero.
Proof.
intros Hp Hq. unfold np_max.
assert (Forall (fun v : F => v = f_zero) (concat (replicate p (replicate q f_zero)))) as Hz.
{ apply Forall_concat, Forall_replicate, Forall_replicate. done. }
destruct (concat (replicate p (replicate q f_zero))) as [|x r] eqn:E.
- destruct p as [|p]; [lia|]. destruct q as [|q]; [lia|]. simpl in E. discriminate E.
- apply Forall_cons in Hz as [-> Hr]. f_equal. clear E.
  induction Hr as [|v r -> _ IH]; simpl; [done|]. by rewrite f_maximum_zero.
Qed.

Lemma zeros_shape (p q K : nat) : has_shape3 (np_zeros (F := F) p q K) p q K.
Proof.
unfold np_zeros. split; [by rewrite length_replicate|].
apply Forall_replicate. split; [by rewrite length_replicate|].
apply Forall_replicate. by rewrite length_replicate.
Qed.
End Zeros.

Section HeatmapRuns.
Context {F : Type} `{Scalar F} {PLT : Pyplot}.
Implicit Types (W : list (list (list F))) (N m : list (list F)).

(** Mode 'joint_threshold' on a square tensor: the thresholded matrix is
  handed to the plotting code of lines 82-103. *)
Lemma heatmap_joint_threshold_run (W : list (list (list F))) (p K : nat)
  (names : list string) ord (t mx : F) dst fh ext (log : list (event F)) :
has_shape3 W p p K -> 1 <= p ->
let N := linalg_norm ord W in
np_max N = Some mx ->
exists m,
  has_shape2 m p p /\
  (forall i j,
     cell m i j =
       (fun x => if f_ltb x (f_mul t mx) then f_zero
                 else if f_leb (f_mul t mx) x then f_one else x) <$> cell N i j) /\
  causal_heatmap W names "joint_threshold" ord t dst fh ext log =
    plot_overall p m names dst fh ext
      (log ++ [Print ("Autocorrelation during analysis: "
                      ++ format_bool (_has_autocorrelation W))%string]).
Proof.
intros HW Hp N Hmx.
pose proof (linalg_norm_shape ord W p p K HW) as HN. fold N in HN.
set (log1 := log ++ [Print ("Autocorrelation during analysis: "
                            ++ format_bool (_has_autocorrelation W))%string]).
destruct (joint_threshold_matrix_cells N t mx log1 Hmx) as (m & Hm & Hshape & Hcell).
exists m. split; [by apply Hshape|]. split; [exact Hcell|].
unfold causal_heatmap. simpl.
destruct W as [|W0 W']; [destruct HW as [HW _]; simpl in HW; lia|].
assert (length W0 = p) as HW0.
{ destruct HW as [_ HW]. apply Forall_cons in HW as [[HW0 _] _]. done. }
unfold shape_of_first, bind at 1 2. simpl. unfold bind at 1. simpl.
fold N. fold log1. rewrite (bind_ok _ _ _ _ _ Hm). by rewrite HW0.
Qed.

(** With accepted labels and no [dst], the plot goes through. *)
Lemma plot_overall_returns p (m : list (list F)) (names : list string) fh ext
  (log : list (event F)) :
ticks_accepted p (length names) = true ->
(plot_overall p m names None fh ext log).1 = Ok tt.
Proof.
intros Hticks. unfold plot_overall, plt_xticks, plt_yticks, range.
rewrite length_seq. simpl. rewrite Hticks. reflexivity.
Qed.

(** With rejected labels, the plot stops at [xticks]: a figure is open,
  nothing is written. *)
Lemma plot_overall_rejected p (m : list (list F)) (names : list string) dst fh ext
  (log : list (event F)) :
ticks_accepted p (length names) = false ->
plot_overall p m names dst fh ext log =
  (Raise ValueError,
   log ++ [Figure p p; Imshow m; Xlabel ("Cause" ++ newline)%string]).
Proof.
intros Hticks. unfold plot_overall, plt_xticks, range.
rewrite length_seq. simpl. rewrite Hticks.
unfold bind, emit, raise. simpl. by rewrite <- !app_assoc.
Qed.

(** The statements before the dispatch on the mode, for a tensor of
    shape [n x p x K]. *)
Lemma causal_heatmap_prelude W (n p K : nat) (names : list string) (mode : string)
    ord (t : F) dst fh ext (log : list (event F)) :
  has_shape3 W n p K -> 1 <= n -> 1 <= p -> mode ∈ heatmap_modes ->
  let N := linalg_norm ord W in
  let log1 := log ++ [Print ("Autocorrelation during analysis: "
                             ++ format_bool (_has_autocorrelation W))%string] in
  causal_heatmap W names mode ord t dst fh ext log =
    (if bool_decide (mode = "joint") then plot_overall p N names dst fh ext
     else if bool_decide (mode = "joint_threshold") then
       bind (joint_threshold_matrix N t)
            (fun N' => plot_overall p N' names dst fh ext)
     else if bool_decide (mode = "ind") then
       for_each (zip names W) (plot_ind p K N names dst fh ext)
     else ret tt) log1.
Proof.
  intros HW Hn Hp Hmode N log1.
  destruct W as [|W0 W']; [destruct HW as [HW _]; simpl in HW; lia|].
  assert (has_shape2 W0 p K) as [HW0 Hrows].
  { destruct HW as [_ HW]. by apply Forall_cons in HW as [HW0 _]. }
  destruct W0 as [|r W0]; simpl in HW0; [lia|].
  assert (length r = K) as Hr by (by apply Forall_cons in Hrows as [Hr _]).
  unfold causal_heatmap.
  rewrite bool_decide_eq_true_2 by done.
  unfold shape_of_first, bind at 1 2. simpl. unfold bind at 1. simpl.
  fold N. fold log1. rewrite HW0, Hr. reflexivity.
Qed.

(** The events of lines 49-61 and 82-94. *)
Lemma plot_overall_accepted p m (names : list string) dst fh ext
    (log : list (event F)) :
  ticks_accepted p (length names) = true ->
  let shown := [Figure p p; Imshow m; Xlabel ("Cause" ++ newline)%string;
                Xticks (range p) (TickNames names); Ylabel "Response";
                Yticks (range p) (TickNames names); XaxisLabelTop; XaxisTickTop;
                Clim f_zero None; Pause] in
  plot_overall p m names dst fh ext log =
    match dst with
    | None => (Ok tt, log ++ shown)
    | Some d =>
        match str_last d with
        | None => (Raise IndexError, log ++ shown)
        | Some c =>
            if Ascii.eqb c "/" then
              match fh with
              | None => (Raise TypeError, log ++ shown ++ [Mkdir d])
              | Some h =>
                  (Ok tt, log ++ shown ++
                          [Mkdir d; Savefig (d ++ h ++ "_overall." ++ ext)%string])
              end
            else (Raise (AssertionError assert_dst), log ++ shown)
        end
    end.
Proof.
  intros Hticks shown. unfold plot_overall, plt_xticks, plt_yticks, prepare_dst, range.
  rewrite length_seq. simpl. rewrite Hticks.
  unfold bind, emit, ret, raise, or_raise, py_assert. simpl.
  destruct dst as [d|]; simpl.
  - destruct (str_last d) as [c|]; simpl.
    + destruct (Ascii.eqb c "/"); simpl.
      * destruct fh as [h|]; simpl; unfold shown; by rewrite <- ?app_assoc.
      * unfold shown; by rewrite <- ?app_assoc.
    + unfold shown; by rewrite <- ?app_assoc.
  - unfold shown; by rewrite <- ?app_assoc.
Qed.

(** Both joint modes end in the plotting code, on the norm matrix or on
    its thresholded copy. *)
Lemma joint_modes_run W (n p K : nat) (names : list string) (mode : string)
    ord (t : F) dst fh ext (log : list (event F)) :
  has_shape3 W n p K -> 1 <= n -> 1 <= p ->
  mode = "joint" \/ mode = "joint_threshold" ->
  exists m,
    (mode = "joint" -> m = linalg_norm ord W) /\
    causal_heatmap W names mode ord t dst fh ext log =
      plot_overall p m names dst fh ext
        (log ++ [Print ("Autocorrelation during analysis: "
                        ++ format_bool (_has_autocorrelation W))%string]).
Proof.
  intros HW Hn Hp Hmode.
  assert (mode ∈ heatmap_modes) as Hin.
  { unfold heatmap_modes. destruct Hmode as [-> | ->]; set_solver. }
  rewrite (causal_heatmap_prelude W n p K names mode ord t dst fh ext log HW Hn Hp Hin).
  destruct Hmode as [-> | ->]; simpl.
  - exists (linalg_norm ord W). done.
  - assert (is_Some (np_max (linalg_norm ord W))) as [mx Hmx].
    { apply (np_max_is_Some _ n p); [|done..]. by apply linalg_norm_shape with K. }
    destruct (joint_threshold_matrix_cells (linalg_norm ord W) t mx
                (log ++ [Print ("Autocorrelation during analysis: "
                                ++ format_bool (_has_autocorrelation W))%string]) Hmx)
      as (m & Hm & _).
    exists m. split; [done|]. by rewrite (bind_ok _ _ _ _ _ Hm).
Qed.
End HeatmapRuns.

Section ZeroMaximum.
Context {F : Type} `{Scalar F} `{!ScalarZero F} `{!ScalarOrder F} {PLT : Pyplot}.

(** C6, as the code has it.  On the all-zero tensor the maximum is zero
  and, for a threshold with threshold * 0 <= 0, nothing is rejected:
  [causal_graph] returns a graph with one edge for every ordered pair
  of variables, each of pen width 5 * (0 / 0); [causal_heatmap] in mode
  'joint_threshold' shows a matrix of ones and, when the tick labels
  are accepted and no [dst] is given, returns normally. *)
Theorem zero_tensor_is_thresholded (p K : nat) (names : list string) (t : F)
  (u : option bool) (ord : option norm_ord) (dst fh : option string)
  (ext fn : string) (log : list (event F)) :
1 <= p -> p <= length names ->
f_leb (f_mul t f_zero) f_zero = true ->
let W := np_zeros (F := F) p p K in
(exists g sel edges log',
   causal_graph W names t u dst fn log = (Ok g, log') /\
   body g = ((fun var => Node var var) <$> names) ++ edges /\
   NoDup sel /\
   (forall e c, (e, c) ∈ sel <-> e < p /\ c < p) /\
   Forall2 (fun (ec : nat * nat) (s : stmt F) =>
              exists tl hd,
                names !! ec.2 = Some tl /\ names !! ec.1 = Some hd /\
                s = Edge tl hd (f_mul f_five (f_div f_zero f_zero)) "1")
           sel edges) /\
(exists m res log',
   causal_heatmap W names "joint_threshold" ord t dst fh ext log = (res, log') /\
   displayed log' = displayed log ++ [m] /\
   (forall i j, i < p -> j < p -> cell m i j = Some f_one) /\
   (ticks_accepted p (length names) = true -> dst = None -> res = Ok tt)).
Proof.
intros Hp Hnames Ht W. pose proof (zeros_shape (F := F) p p K) as HW. fold W in HW.
split.
- destruct (causal_graph_spec W p K names t u dst fn log HW Hp Hnames)
    as (mx & sel & edges & Hmx & Hrun & Hnd & Hsel & Hedges).
  unfold W in Hmx, Hsel, Hedges. rewrite linalg_norm_zeros in Hmx, Hsel, Hedges.
  rewrite np_max_zeros in Hmx by done. injection Hmx as <-.
  eexists _, sel, edges, _. split; [exact Hrun|]. split; [done|].
  split; [done|]. split.
  + intros e c. rewrite Hsel. split.
    * intros (x & Hx & _). eapply cell_lt; [|exact Hx].
      split; [by rewrite length_replicate|].
      apply Forall_replicate. by rewrite length_replicate.
    * intros [He Hc]. exists f_zero. split; [by apply cell_replicate|done].
  + eapply Forall2_impl; [exact Hedges|].
    intros [e c] s (x & tl & hd & Hx & Htl & Hhd & ->). simpl in *.
    exists tl, hd. split; [done|]. split; [done|].
    assert (e < p /\ c < p) as [He Hc].
    { eapply cell_lt; [|exact Hx]. split; [by rewrite length_replicate|].
      apply Forall_replicate. by rewrite length_replicate. }
    rewrite cell_replicate in Hx by done. by injection Hx as <-.
- assert (np_max (linalg_norm ord W) = Some f_zero) as Hmx.
  { unfold W. rewrite linalg_norm_zeros. by apply np_max_zeros. }
  destruct (heatmap_joint_threshold_run W p K names ord t f_zero dst fh ext log
              HW Hp Hmx) as (m & Hshape & Hcell & Hrun).
  destruct (plot_overall_displayed p m names dst fh ext
              (log ++ [Print ("Autocorrelation during analysis: "
                              ++ format_bool (_has_autocorrelation W))%string]))
    as (res & log' & Hplot & Hshown).
  exists m, res, log'. split; [by rewrite Hrun|]. split; [|split].
  + rewrite Hshown, displayed_app. simpl. by rewrite app_nil_r.
  + intros i j Hi Hj. rewrite Hcell. unfold W.
    rewrite linalg_norm_zeros, cell_replicate by done. simpl.
    destruct (f_ltb f_zero (f_mul t f_zero)) eqn:Hlt.
    * apply f_ltb_not_geb in Hlt. congruence.
    * by rewrite Ht.
  + intros Hticks ->.
    pose proof (plot_overall_returns p m names fh ext
                  (log ++ [Print ("Autocorrelation during analysis: "
                                  ++ format_bool (_has_autocorrelation W))%string])
                  Hticks) as Hret.
    rewrite Hplot in Hret. exact Hret.
Qed.
End ZeroMaximum.

Lemma zero_tensor_is_thresholded_witness :
  (exists g sel edges log',
     causal_graph (np_zeros 2 2 1) names_AB threshold_default None None "graph" [] =
       (Ok g, log') /\
     body g = ((fun var => Node var var) <$> names_AB) ++ edges /\
     NoDup sel /\
     (forall e c, (e, c) ∈ sel <-> e < 2 /\ c < 2) /\
     Forall2 (fun (ec : nat * nat) (s : stmt float) =>
                exists tl hd,
                  names_AB !! ec.2 = Some tl /\ names_AB !! ec.1 = Some hd /\
                  s = Edge tl hd (f_mul f_five (f_div f_zero f_zero)) "1")
             sel edges) /\
  (exists m res log',
     causal_heatmap (PLT := strict_pyplot) (np_zeros 2 2 1) names_AB
       "joint_threshold" (Some ord_2) threshold_default None None "png" [] =
       (res, log') /\
     displayed log' = [] ++ [m] /\
     (forall i j, i < 2 -> j < 2 -> cell m i j = Some f_one) /\
     (ticks_accepted (Pyplot := strict_pyplot) 2 (length names_AB) = true ->
      @None string = None -> res = Ok tt)).
Proof.
  apply (zero_tensor_is_thresholded (PLT := strict_pyplot) 2 1 names_AB
           threshold_default None (Some ord_2) None None "png" "graph" []).
  - lia.
  - simpl. lia.
  - reflexivity.
Defined.

(** C6 as claimed fails: on the all-zero 2 x 2 x 1 tensor with the
    default threshold, [causal_graph] returns a graph with four edges of
    pen width NaN, and [causal_heatmap] in mode 'joint_threshold' plots
    a matrix of ones; neither raises. *)
Lemma zero_tensor_not_rejected :
  (exists g,
     causal_graph (np_zeros 2 2 1) names_AB threshold_default None None "graph" [] =
       (Ok g, []) /\
     body g = [Node "A" "A"; Node "B" "B";
               Edge "A" "A" nan "1"; Edge "B" "A" nan "1";
               Edge "A" "B" nan "1"; Edge "B" "B" nan "1"]) /\
  (let run := causal_heatmap (PLT := strict_pyplot) (np_zeros 2 2 1) names_AB
                "joint_threshold" (Some ord_2) threshold_default None None "png" [] in
   run.1 = Ok tt /\
   displayed run.2 = [[[1%float; 1%float]; [1%float; 1%float]]]).
Proof.
  split.
  - eexists. split; reflexivity.
  - split; vm_compute; reflexivity.
Qed.

(** ** Variable names of the wrong length *)

Section NameCount.
Context {F : Type} `{Scalar F} {PLT : Pyplot}.

(** The statements of [causal_heatmap] before the dispatch on the mode. *)
Lemma causal_heatmap_dispatch (W : list (list (list F))) (p K : nat)
  (names : list string) (mode : string) ord (t : F) dst fh ext
  (log : list (event F)) :
has_shape3 W p p K -> 1 <= p -> mode ∈ heatmap_modes ->
let N := linalg_norm ord W in
let log1 := log ++ [Print ("Autocorrelation during analysis: "
                           ++ format_bool (_has_autocorrelation W))%string] in
exists K',
  causal_heatmap W names mode ord t dst fh ext log =
    (if bool_decide (mode = "joint") then plot_overall p N names dst fh ext
     else if bool_decide (mode = "joint_threshold") then
       bind (joint_threshold_matrix N t)
            (fun N' => plot_overall p N' names dst fh ext)
     else if bool_decide (mode = "ind") then
       for_each (zip names W) (plot_ind p K' N names dst fh ext)
     else ret tt) log1.
Proof.
intros HW Hp Hmode N log1.
destruct W as [|W0 W']; [destruct HW as [HW _]; simpl in HW; lia|].
assert (length W0 = p) as HW0.
{ destruct HW as [_ HW]. apply Forall_cons in HW as [[HW0 _] _]. done. }
eexists. unfold causal_heatmap.
rewrite bool_decide_eq_true_2 by done.
unfold shape_of_first, bind at 1 2. simpl. unfold bind at 1. simpl.
fold N. fold log1. rewrite HW0. reflexivity.
Qed.

(** With rejected labels, the body of the 'ind' loop stops at [xticks]. *)
Lemma plot_ind_rejected p K (N : list (list F)) (names : list string) dst fh ext
  (var_row : string * list (list F)) (log : list (event F)) :
ticks_accepted p (length names) = false ->
plot_ind p K N names dst fh ext var_row log =
  (Raise ValueError,
   log ++ [Figure K p; Imshow (np_transpose K var_row.2);
           Xlabel ("Causes to " ++ var_row.1 ++ newline)%string]).
Proof.
intros Hticks. unfold plot_ind, plt_xticks, range.
rewrite length_seq. simpl. rewrite Hticks.
unfold bind, emit, raise. simpl. by rewrite <- !app_assoc.
Qed.

(** With no labels at all and a backend that takes that, the plot of
  lines 49-70 goes through to the [dst] code. *)
Lemma plot_overall_unlabelled p (m : list (list F)) dst fh ext
  (log : list (event F)) :
ticks_accepted p 0 = true ->
let run := plot_overall p m [] dst fh ext log in
run.1 <> Raise ValueError /\
displayed run.2 = displayed log ++ [m] /\
(dst = None -> run.1 = Ok tt /\ written run.2 = written log) /\
(forall d h, dst = Some d -> str_last d = Some "/"%char -> fh = Some h ->
   run.1 = Ok tt /\
   written run.2 = written log ++ [d; (d ++ h ++ "_overall." ++ ext)%string]).
Proof.
intros Hticks run. unfold run.
rewrite (plot_overall_accepted p m [] dst fh ext log Hticks).
destruct dst as [d|]; [destruct (str_last d) as [c|] eqn:Hlast;
  [destruct (Ascii.eqb_spec c "/") as [->|Hc]; [destruct fh as [h|]|]|]|]; simpl;
  rewrite ?written_app, ?displayed_app; simpl; rewrite ?app_nil_r;
  (split; [done|]); (split; [done|]); (split; [done|]);
  intros d' h' [= <-] Hl Hh; try congruence.
rewrite Hlast in Hl. by injection Hh as <-.
Qed.

(** C8, as the code has it.  [causal_heatmap] does not compare the
  number of names with the size of the tensor; what happens is left to
  the backend.  With a backend that rejects a non-empty list of labels
  whose length is not the number of ticks and takes an empty one
  (matplotlib since 3.3), a call on a square tensor with a number of
  names other than its size behaves as follows.  With at least one
  name it raises the backend's [ValueError] at the first [xticks],
  having opened one figure and written nothing.  With no name nothing
  is rejected: mode 'ind' returns normally after printing the
  autocorrelation line, its loop body never run; the joint modes draw
  the heatmap without labels, never raise [ValueError], return
  normally when no [dst] is given and save the file when a [dst]
  ending in '/' and a file header are given. *)
Theorem mismatched_names_outcome (W : list (list (list F))) (p K : nat)
  (names : list string) (mode : string) (ord : option norm_ord) (t : F)
  (dst fh : option string) (ext : string) (log : list (event F)) :
(forall n m, n <> m -> m <> 0 -> ticks_accepted n m = false) ->
(forall n, ticks_accepted n 0 = true) ->
has_shape3 W p p K -> 1 <= p -> length names <> p ->
mode ∈ heatmap_modes ->
let run := causal_heatmap W names mode ord t dst fh ext log in
(names <> [] ->
   run.1 = Raise ValueError /\ written run.2 = written log /\
   length (displayed run.2) = S (length (displayed log))) /\
(names = [] -> mode = "ind" ->
   run = (Ok tt, log ++ [Print ("Autocorrelation during analysis: "
                                ++ format_bool (_has_autocorrelation W))%string])) /\
(names = [] -> mode <> "ind" ->
   run.1 <> Raise ValueError /\
   length (displayed run.2) = S (length (displayed log)) /\
   (dst = None -> run.1 = Ok tt /\ written run.2 = written log) /\
   (forall d h, dst = Some d -> str_last d = Some "/"%char -> fh = Some h ->
      run.1 = Ok tt /\
      written run.2 = written log ++ [d; (d ++ h ++ "_overall." ++ ext)%string])).
Proof.
intros Hstrict Hempty HW Hp Hlen Hmode run.
destruct (causal_heatmap_dispatch W p K names mode ord t dst fh ext log HW Hp Hmode)
  as [K' Hrun].
fold run in Hrun. rewrite Hrun. clear Hrun run.
set (log1 := log ++ [Print _]).
assert (written log1 = written log) as Hw1.
{ unfold log1. rewrite written_app. simpl. by rewrite app_nil_r. }
assert (displayed log1 = displayed log) as Hd1.
{ unfold log1. rewrite displayed_app. simpl. by rewrite app_nil_r. }
set (N := linalg_norm ord W).
assert (is_Some (np_max N)) as [mx Hmx].
{ apply (np_max_is_Some N p p); [|done..]. by apply linalg_norm_shape with K. }
assert (names <> [] -> ticks_accepted p (length names) = false) as Hticks.
{ intros Hne. apply Hstrict; [congruence|]. by destruct names. }
assert (forall m : list (list F),
          names = [] ->
          let run := plot_overall p m names dst fh ext log1 in
          run.1 <> Raise ValueError /\
          length (displayed run.2) = S (length (displayed log)) /\
          (dst = None -> run.1 = Ok tt /\ written run.2 = written log) /\
          (forall d h, dst = Some d -> str_last d = Some "/"%char -> fh = Some h ->
             run.1 = Ok tt /\
             written run.2 = written log ++ [d; (d ++ h ++ "_overall." ++ ext)%string]))
  as Hunlabelled.
{ intros m -> run.
  destruct (plot_overall_unlabelled p m dst fh ext log1 (Hempty p))
    as (Hne & Hshown & Hnone & Hsave).
  fold run in Hne, Hshown, Hnone, Hsave. rewrite Hw1 in Hnone, Hsave.
  split; [done|]. split; [|done].
  rewrite Hshown, Hd1, length_app. simpl. lia. }
repeat apply elem_of_cons in Hmode as [->|Hmode]; [| | |by apply elem_of_nil in Hmode].
- (* joint *)
  simpl. split; [|split; [done|]].
  + intros Hne.
    rewrite (plot_overall_rejected p N names dst fh ext log1 (Hticks Hne)). simpl.
    rewrite written_app, displayed_app, Hw1, Hd1. simpl.
    rewrite app_nil_r, length_app. simpl. split; [done|]. split; [done|lia].
  + intros Hnil _. by apply Hunlabelled.
- (* ind *)
  simpl. split; [|split; [|done]].
  + intros Hne. destruct names as [|v names]; [done|].
    destruct W as [|W0 W']; [destruct HW as [HW _]; simpl in HW; lia|].
    cbn [zip zip_with for_each].
    rewrite (bind_raise _ _ _ _ _
               (plot_ind_rejected p K' N (v :: names) dst fh ext (v, W0) log1
                  (Hticks Hne))).
    simpl. rewrite written_app, displayed_app, Hw1, Hd1. simpl.
    rewrite app_nil_r, length_app. simpl. split; [done|]. split; [done|lia].
  + intros -> _. reflexivity.
- (* joint_threshold *)
  simpl. destruct (joint_threshold_matrix_cells N t mx log1 Hmx) as (m & Hm & _).
  rewrite (bind_ok _ _ _ _ _ Hm).
  split; [|split; [done|]].
  + intros Hne.
    rewrite (plot_overall_rejected p m names dst fh ext log1 (Hticks Hne)). simpl.
    rewrite written_app, displayed_app, Hw1, Hd1. simpl.
    rewrite app_nil_r, length_app. simpl. split; [done|]. split; [done|lia].
  + intros Hnil _. by apply Hunlabelled.
Qed.
End NameCount.

Lemma strict_pyplot_rejects (n m : nat) :
  n <> m -> m <> 0 -> ticks_accepted (Pyplot := strict_pyplot) n m = false.
Proof.
  intros Hnm Hm. simpl. apply orb_false_iff.
  split; by apply Nat.eqb_neq.
Qed.

Lemma mismatched_names_outcome_witness :
  let run := causal_heatmap (PLT := strict_pyplot) W_self ["A"] "joint"
               (Some ord_2) threshold_default (Some "out/") (Some "run") "png" [] in
  run.1 = Raise ValueError /\ written run.2 = written (F := float) [] /\
  length (displayed run.2) = S (length (displayed (F := float) [])).
Proof.
  apply (mismatched_names_outcome (PLT := strict_pyplot) W_self 2 2 ["A"] "joint"
           (Some ord_2) threshold_default (Some "out/") (Some "run") "png" []).
  - exact strict_pyplot_rejects.
  - reflexivity.
  - split; [reflexivity|]. repeat constructor.
  - lia.
  - simpl. lia.
  - unfold heatmap_modes. apply elem_of_cons. by left.
  - discriminate.
Defined.

(** C8 as claimed fails: the tensor [W_self] has two variables, yet
    with no names the call returns normally in mode 'ind', whichever
    backend is used, and in mode 'joint' with current matplotlib, where
    it also saves the unlabelled heatmap; and with a backend that takes
    any number of labels, mode 'joint' plots the matrix with one label
    for two ticks. *)
Lemma mismatched_names_not_rejected :
  length ([] : list string) <> length W_self /\
  causal_heatmap (PLT := strict_pyplot) W_self [] "ind" (Some ord_2)
      threshold_default None None "png" [] =
    (Ok tt, [Print "Autocorrelation during analysis: True"]) /\
  causal_heatmap (PLT := lenient_pyplot) W_self [] "ind" (Some ord_2)
      threshold_default None None "png" [] =
    (Ok tt, [Print "Autocorrelation during analysis: True"]) /\
  (let run := causal_heatmap (PLT := strict_pyplot) W_self [] "joint"
                (Some ord_2) threshold_default (Some "out/") (Some "run") "png" [] in
   run.1 = Ok tt /\ written run.2 = ["out/"; "out/run_overall.png"]) /\
  (let run := causal_heatmap (PLT := lenient_pyplot) W_self ["A"] "joint"
                (Some ord_2) threshold_default None None "png" [] in
   run.1 = Ok tt /\ length (displayed run.2) = 1).
Proof.
  split; [simpl; lia|]. split; [vm_compute; reflexivity|].
  split; [vm_compute; reflexivity|].
  split; split; vm_compute; reflexivity.
Qed.

(** * Further properties *)

(** ** What the heatmap may do *)

Lemma appends_ret {F A : Type} (P : event F -> Prop) (a : A) : appends P (@ret F A a).
Proof. intros log. exists []. by rewrite app_nil_r. Qed.

Lemma appends_raise {F A : Type} (P : event F -> Prop) (e : exn) :
  appends P (@raise F A e).
Proof. intros log. exists []. by rewrite app_nil_r. Qed.

Lemma appends_emit {F : Type} (P : event F -> Prop) (ev : event F) :
  P ev -> appends P (emit ev).
Proof. intros Hev log. exists [ev]. split; [done|]. by constructor. Qed.

Lemma appends_or_raise {F A : Type} (P : event F -> Prop) (o : option A) (e : exn) :
  appends P (@or_raise F A o e).
Proof. destruct o; [apply appends_ret|apply appends_raise]. Qed.

Lemma appends_assert {F : Type} (P : event F -> Prop) (b : bool) (site : assert_site) :
  appends P (@py_assert F b site).
Proof. destruct b; [apply appends_ret|apply appends_raise]. Qed.

Lemma appends_bind {F A B : Type} (P : event F -> Prop) (m : M F A) (k : A -> M F B) :
  appends P m -> (forall a, appends P (k a)) -> appends P (bind m k).
Proof.
  intros Hm Hk log. unfold bind. destruct (Hm log) as (new1 & E1 & H1).
  destruct (m log) as [[a|e] log1]; simpl in E1; subst log1.
  - destruct (Hk a (log ++ new1)) as (new2 & E2 & H2).
    exists (new1 ++ new2). rewrite E2, app_assoc. split; [done|].
    by apply Forall_app.
  - exists new1. done.
Qed.

Lemma appends_for_each {F A : Type} (P : event F -> Prop) (l : list A)
    (body : A -> M F unit) :
  (forall a, appends P (body a)) -> appends P (for_each l body).
Proof.
  intros Hb. induction l as [|a l IH]; simpl.
  - apply appends_ret.
  - apply appends_bind; [apply Hb|]. intros _. exact IH.
Qed.

Lemma appends_map_M {F A B : Type} (P : event F -> Prop) (f : A -> M F B) (l : list A) :
  (forall a, appends P (f a)) -> appends P (map_M f l).
Proof.
  intros Hf. induction l as [|a l IH]; simpl.
  - apply appends_ret.
  - apply appends_bind; [apply Hf|]. intros b.
    apply appends_bind; [exact IH|]. intros bs. apply appends_ret.
Qed.

Create HintDb appends discriminated.
#[export] Hint Resolve appends_ret appends_raise appends_or_raise appends_assert
  appends_for_each appends_map_M : appends.
#[export] Hint Extern 1 (appends _ (bind _ _)) =>
  apply appends_bind; [|intros ?] : appends.
#[export] Hint Extern 1 (appends _ (emit _)) =>
  apply appends_emit; simpl; eauto : appends.
#[export] Hint Extern 2 (appends _ (match ?x with _ => _ end)) =>
  destruct x : appends.
#[export] Hint Extern 2 (appends _ (if ?x then _ else _)) =>
  destruct x : appends.

Section HeatmapEvents.
Context {F : Type} `{Scalar F} {PLT : Pyplot}.

Lemma appends_ticks (P : event F -> Prop) (locs : list nat) (labels : tick_labels) :
  P (Xticks locs labels) -> P (Yticks locs labels) ->
  appends P (plt_xticks locs labels) /\ appends P (plt_yticks locs labels).
Proof.
  intros Hx Hy. unfold plt_xticks, plt_yticks.
  destruct (ticks_accepted _ _); split;
    (apply appends_emit; assumption) || apply appends_raise.
Qed.

Lemma prepare_dst_events (d : string) :
  appends (heatmap_event (Some d)) (prepare_dst (F := F) d).
Proof. unfold prepare_dst. auto 10 with appends. Qed.

Lemma plot_overall_events p (m : list (list F)) names dst fh ext :
  appends (heatmap_event dst) (plot_overall p m names dst fh ext).
Proof.
  unfold plot_overall.
  destruct (appends_ticks (heatmap_event dst) (range p) (TickNames names) I I)
    as [Hx Hy].
  repeat (apply appends_bind; [by auto with appends|intros ?]).
  destruct dst as [d|]; [|apply appends_ret].
  apply appends_bind; [apply prepare_dst_events|intros ?].
  destruct fh as [h|]; [|apply appends_raise].
  apply appends_emit. simpl. eauto.
Qed.

Lemma plot_ind_events p K (N : list (list F)) names dst fh ext var_row :
  appends (heatmap_event dst) (plot_ind p K N names dst fh ext var_row).
Proof.
  unfold plot_ind. cbv zeta.
  destruct (appends_ticks (heatmap_event dst) (range p) (TickNames names) I I)
    as [Hx _].
  destruct (appends_ticks (heatmap_event dst) (range K) (TickNumbers (seq 1 K)) I I)
    as [_ Hy].
  repeat (apply appends_bind; [by auto with appends|intros ?]).
  apply appends_bind; [|intros ?; auto with appends].
  destruct dst as [d|]; [|apply appends_ret].
  apply appends_bind; [apply prepare_dst_events|intros ?].
  apply appends_emit. simpl. eauto.
Qed.

(** Whatever its arguments, a call of [causal_heatmap] extends the log
    by events of the kinds [heatmap_event] admits. *)
Lemma causal_heatmap_events (W : list (list (list F))) (names : list string)
    (mode : string) ord (t : F) dst fh ext :
  appends (heatmap_event dst) (causal_heatmap W names mode ord t dst fh ext).
Proof.
  unfold causal_heatmap.
  apply appends_bind; [apply appends_assert|intros _].
  apply appends_bind; [unfold shape_of_first; auto with appends|intros pK].
  cbv zeta. apply appends_bind; [by apply appends_emit|intros _].
  repeat case_bool_decide.
  - apply plot_overall_events.
  - apply appends_bind; [|intros ?; apply plot_overall_events].
    unfold joint_threshold_matrix. auto 10 with appends.
  - apply appends_for_each. intros ?. apply plot_ind_events.
  - apply appends_ret.
Qed.
End HeatmapEvents.


Lemma string_prefix_append (d rest : string) : String.prefix d (d ++ rest)%string = true.
Proof.
  induction d as [|c d IH]; [by destruct rest|].
  change (String c d ++ rest)%string with (String c (d ++ rest)%string).
  simpl. destruct (ascii_dec c c); [exact IH|done].
Qed.

Section HeatmapSafety.
Context {F : Type} `{Scalar F} {PLT : Pyplot}.

(** X1. Without a [dst], a call of [causal_heatmap] creates no directory
    and saves no file, whatever its other arguments and however it
    ends. *)
Theorem heatmap_without_dst_writes_nothing (W : list (list (list F)))
    (names : list string) (mode : string) (ord : option norm_ord) (t : F)
    (fh : option string) (ext : string) (log : list (event F)) :
  written (causal_heatmap W names mode ord t None fh ext log).2 = written log.
Proof.
  destruct (causal_heatmap_events W names mode ord t None fh ext log)
    as (new & -> & Hnew).
  rewrite written_app. replace (written new) with (@nil string); [by rewrite app_nil_r|].
  induction Hnew as [|ev new Hev _ IH]; [done|].
  destruct ev; simpl in *; try done.
  by destruct Hev as (d & rest & [=] & _).
Qed.

(** X2. With [dst] given, the only directory a call of
    [causal_heatmap] asks to be made is [dst] itself, by
    [Path(dst).mkdir(exist_ok=True, parents=True)], which makes [dst]
    and those ancestors of [dst] that are missing; and every file the
    call saves has [dst] as a prefix of its path. *)
Theorem heatmap_writes_below_dst (W : list (list (list F)))
    (names : list string) (mode : string) (ord : option norm_ord) (t : F)
    (d : string) (fh : option string) (ext : string) (log : list (event F)) :
  exists new,
    (causal_heatmap W names mode ord t (Some d) fh ext log).2 = log ++ new /\
    Forall (fun ev => match ev with
                      | Mkdir path => path = d
                      | Savefig path => String.prefix d path = true
                      | _ => True
                      end) new.
Proof.
  destruct (causal_heatmap_events W names mode ord t (Some d) fh ext log)
    as (new & Hrun & Hnew).
  exists new. split; [exact Hrun|].
  eapply Forall_impl; [exact Hnew|]. intros ev Hev.
  destruct ev as [| | | | | | | | | | |q|q|]; simpl in *; try done.
  - by injection Hev as <-.
  - destruct Hev as (d' & rest & [= <-] & ->). apply string_prefix_append.
Qed.

(** X3. Every colour scale a call of [causal_heatmap] sets has its
    minimum at zero. *)
Theorem heatmap_colour_minimum_zero (W : list (list (list F)))
    (names : list string) (mode : string) (ord : option norm_ord) (t : F)
    (dst fh : option string) (ext : string) (log : list (event F))
    (vmin : F) (vmax : option F) :
  (vmin, vmax) ∈ colour_limits (causal_heatmap W names mode ord t dst fh ext log).2 ->
  (vmin, vmax) ∈ colour_limits log \/ vmin = f_zero.
Proof.
  destruct (causal_heatmap_events W names mode ord t dst fh ext log)
    as (new & -> & Hnew).
  unfold colour_limits. rewrite omap_app, elem_of_app. intros [Hold|Hin]; [by left|right].
  induction Hnew as [|ev new Hev _ IH]; [by apply elem_of_nil in Hin|].
  destruct ev; simpl in *; try (by apply IH).
  apply elem_of_cons in Hin as [[= -> ->]|Hin]; [done|by apply IH].
Qed.
End HeatmapSafety.

Lemma heatmap_colour_minimum_zero_witness :
  (0%float, Some 5%float) ∈
    colour_limits (causal_heatmap (PLT := strict_pyplot) W_sample names_AB "ind"
                     (Some ord_2) threshold_default None None "png" []).2 /\
  (0%float : float) = f_zero.
Proof.
  assert ((0%float, Some 5%float) ∈
            colour_limits (causal_heatmap (PLT := strict_pyplot) W_sample names_AB
                             "ind" (Some ord_2) threshold_default None None
                             "png" []).2) as Hin.
  { apply list_elem_of_In. vm_compute. auto. }
  split; [exact Hin|].
  destruct (heatmap_colour_minimum_zero _ _ _ _ _ _ _ _ _ _ _ Hin) as [Hold|Hz].
  - by apply elem_of_nil in Hold.
  - exact Hz.
Defined.


(** ** Runs of the heatmap that plot *)

Section HeatmapPlots.
Context {F : Type} `{Scalar F} {PLT : Pyplot}.
Implicit Types (W : list (list (list F))) (N m : list (list F)).

(** X4. In mode 'joint' on a non-empty tensor, the one matrix shown is
    the matrix of norms over the lag axis, unchanged, whatever happens
    to the labels or the file afterwards. *)
Theorem joint_mode_shows_norm_matrix W (n p K : nat) (names : list string)
    (ord : option norm_ord) (t : F) (dst fh : option string) (ext : string)
    (log : list (event F)) :
  has_shape3 W n p K -> 1 <= n -> 1 <= p ->
  displayed (causal_heatmap W names "joint" ord t dst fh ext log).2 =
    displayed log ++ [linalg_norm ord W].
Proof.
  intros HW Hn Hp.
  destruct (joint_modes_run W n p K names "joint" ord t dst fh ext log HW Hn Hp)
    as (m & Hm & ->); [by left|]. rewrite (Hm eq_refl).
  destruct (plot_overall_displayed p (linalg_norm ord W) names dst fh ext
              (log ++ [Print ("Autocorrelation during analysis: "
                              ++ format_bool (_has_autocorrelation W))%string]))
    as (res & log' & Hrun & Hshown).
  rewrite Hrun. simpl. rewrite Hshown, displayed_app. simpl. by rewrite app_nil_r.
Qed.

(** X5. In the joint modes, with accepted labels, a [dst] that ends in
    '/' and a file header, the call returns normally after creating
    [dst] and saving exactly one file, [dst + file_header + '_overall.'
    + ext]. *)
Theorem joint_modes_save_overall W (n p K : nat) (names : list string)
    (mode : string) (ord : option norm_ord) (t : F) (d h ext : string)
    (log : list (event F)) :
  has_shape3 W n p K -> 1 <= n -> 1 <= p ->
  mode = "joint" \/ mode = "joint_threshold" ->
  ticks_accepted p (length names) = true ->
  str_last d = Some "/"%char ->
  let run := causal_heatmap W names mode ord t (Some d) (Some h) ext log in
  run.1 = Ok tt /\
  written run.2 = written log ++ [d; (d ++ h ++ "_overall." ++ ext)%string].
Proof.
  intros HW Hn Hp Hmode Hticks Hlast run. unfold run.
  destruct (joint_modes_run W n p K names mode ord t (Some d) (Some h) ext log
              HW Hn Hp Hmode) as (m & _ & ->).
  rewrite (plot_overall_accepted p m names _ _ ext _ Hticks), Hlast. simpl.
  split; [done|]. rewrite !written_app. simpl. by rewrite app_nil_r.
Qed.

(** X6. In the joint modes, with accepted labels, a [dst] that is empty
    raises [IndexError] and a [dst] whose last character is not '/'
    fails the assertion; either way the figure has been drawn by then
    and nothing is created or saved. *)
Theorem joint_modes_dst_check W (n p K : nat) (names : list string)
    (mode : string) (ord : option norm_ord) (t : F) (d : string)
    (fh : option string) (ext : string) (log : list (event F)) :
  has_shape3 W n p K -> 1 <= n -> 1 <= p ->
  mode = "joint" \/ mode = "joint_threshold" ->
  ticks_accepted p (length names) = true ->
  str_last d <> Some "/"%char ->
  let run := causal_heatmap W names mode ord t (Some d) fh ext log in
  run.1 = match str_last d with
          | None => Raise IndexError
          | Some _ => Raise (AssertionError assert_dst)
          end /\
  written run.2 = written log /\
  length (displayed run.2) = S (length (displayed log)).
Proof.
  intros HW Hn Hp Hmode Hticks Hlast run. unfold run.
  destruct (joint_modes_run W n p K names mode ord t (Some d) fh ext log
              HW Hn Hp Hmode) as (m & _ & ->).
  rewrite (plot_overall_accepted p m names _ _ ext _ Hticks).
  destruct (str_last d) as [c|] eqn:Hc.
  - destruct (Ascii.eqb_spec c "/") as [->|Hne]; [done|]. simpl.
    rewrite !written_app, !displayed_app. simpl.
    rewrite ?app_nil_r, ?length_app. simpl. split; [done|]. split; [done|lia].
  - simpl. rewrite !written_app, !displayed_app. simpl.
    rewrite ?app_nil_r, ?length_app. simpl. split; [done|]. split; [done|lia].
Qed.

(** X7. In the joint modes, with accepted labels and a [dst] that ends
    in '/', a missing file header raises [TypeError] after the directory
    has been created: [dst] exists afterwards and no file is saved. *)
Theorem joint_modes_missing_header W (n p K : nat) (names : list string)
    (mode : string) (ord : option norm_ord) (t : F) (d ext : string)
    (log : list (event F)) :
  has_shape3 W n p K -> 1 <= n -> 1 <= p ->
  mode = "joint" \/ mode = "joint_threshold" ->
  ticks_accepted p (length names) = true ->
  str_last d = Some "/"%char ->
  let run := causal_heatmap W names mode ord t (Some d) None ext log in
  run.1 = Raise TypeError /\ written run.2 = written log ++ [d].
Proof.
  intros HW Hn Hp Hmode Hticks Hlast run. unfold run.
  destruct (joint_modes_run W n p K names mode ord t (Some d) None ext log
              HW Hn Hp Hmode) as (m & _ & ->).
  rewrite (plot_overall_accepted p m names _ _ ext _ Hticks), Hlast. simpl.
  split; [done|]. rewrite !written_app. simpl. by rewrite app_nil_r.
Qed.
End HeatmapPlots.

Lemma W_sample_shape : has_shape3 W_sample 2 2 1.
Proof. split; [reflexivity|]. repeat constructor. Qed.

Lemma joint_mode_shows_norm_matrix_witness :
  displayed (causal_heatmap (PLT := strict_pyplot) W_sample ["A"] "joint" (Some ord_2)
               threshold_default None None "png" []).2 =
    [] ++ [linalg_norm (Some ord_2) W_sample].
Proof.
  apply (joint_mode_shows_norm_matrix (PLT := strict_pyplot) W_sample 2 2 1).
  - split; [reflexivity|]. repeat constructor.
  - lia.
  - lia.
Defined.

Lemma joint_modes_save_overall_witness :
  let run := causal_heatmap (PLT := strict_pyplot) W_sample names_AB
               "joint_threshold" (Some ord_2) threshold_default
               (Some "out/") (Some "run") "png" [] in
  run.1 = Ok tt /\
  written run.2 = written (F := float) [] ++ ["out/"; "out/run_overall.png"].
Proof.
  apply (joint_modes_save_overall (PLT := strict_pyplot) W_sample 2 2 1 names_AB
           "joint_threshold" (Some ord_2) threshold_default "out/" "run" "png" []).
  - split; [reflexivity|]. repeat constructor.
  - lia.
  - lia.
  - by right.
  - reflexivity.
  - reflexivity.
Defined.

Lemma joint_modes_dst_check_witness :
  let run := causal_heatmap (PLT := strict_pyplot) W_sample names_AB "joint"
               (Some ord_2) threshold_default (Some "out") (Some "run") "png" [] in
  run.1 = Raise (AssertionError assert_dst) /\
  written run.2 = written (F := float) [] /\
  length (displayed run.2) = S (length (displayed (F := float) [])).
Proof.
  apply (joint_modes_dst_check (PLT := strict_pyplot) W_sample 2 2 1 names_AB
           "joint" (Some ord_2) threshold_default "out" (Some "run") "png" []).
  - split; [reflexivity|]. repeat constructor.
  - lia.
  - lia.
  - by left.
  - reflexivity.
  - simpl. discriminate.
Defined.

Lemma joint_modes_missing_header_witness :
  let run := causal_heatmap (PLT := strict_pyplot) W_sample names_AB "joint"
               (Some ord_2) threshold_default (Some "out/") None "png" [] in
  run.1 = Raise TypeError /\ written run.2 = written (F := float) [] ++ ["out/"].
Proof.
  apply (joint_modes_missing_header (PLT := strict_pyplot) W_sample 2 2 1 names_AB
           "joint" (Some ord_2) threshold_default "out/" "png" []).
  - split; [reflexivity|]. repeat constructor.
  - lia.
  - lia.
  - by left.
  - reflexivity.
  - reflexivity.
Defined.


(** ** Mode 'ind' *)

Section HeatmapInd.
Context {F : Type} `{Scalar F} {PLT : Pyplot}.
Implicit Types (W : list (list (list F))) (N m : list (list F)).

(** One pass of the loop of lines 106-130 with accepted labels and a
    [dst] that is absent or ends in '/'. *)
Lemma plot_ind_accepted p K N (names : list string) (dst fh : option string)
    (ext : string) (mx : F) (var : string) (row : list (list F))
    (log : list (event F)) :
  ticks_accepted p (length names) = true ->
  ticks_accepted K K = true ->
  np_max N = Some mx ->
  (forall d, dst = Some d -> str_last d = Some "/"%char) ->
  plot_ind p K N names dst fh ext (var, row) log =
    (Ok tt,
     log ++ [Figure K p; Imshow (np_transpose K row);
             Xlabel ("Causes to " ++ var ++ newline)%string;
             Xticks (range p) (TickNames names); Ylabel "Time Lag";
             Yticks (range K) (TickNumbers (seq 1 K)); XaxisLabelTop; XaxisTickTop;
             Clim f_zero (Some mx)]
         ++ match dst with
            | None => []
            | Some d => [Mkdir d;
                         Savefig (d ++ format_opt fh ++ "_" ++ var ++ "." ++ ext)%string]
            end
         ++ [Print ""; Pause]).
Proof.
  intros Hp HK Hmx Hdst.
  unfold plot_ind, plt_xticks, plt_yticks, prepare_dst, range. cbv zeta.
  rewrite !length_seq. simpl. rewrite !length_seq, Hp, HK, Hmx.
  unfold bind, emit, ret, raise, or_raise, py_assert. simpl.
  destruct dst as [d|]; simpl.
  - rewrite (Hdst d eq_refl). simpl. by rewrite <- ?app_assoc.
  - by rewrite <- ?app_assoc.
Qed.

(** The whole loop. *)
Lemma for_each_plot_ind p K N (names : list string) (dst fh : option string)
    (ext : string) (mx : F) (l : list (string * list (list F)))
    (log : list (event F)) :
  ticks_accepted p (length names) = true ->
  ticks_accepted K K = true ->
  np_max N = Some mx ->
  (forall d, dst = Some d -> str_last d = Some "/"%char) ->
  exists log',
    for_each l (plot_ind p K N names dst fh ext) log = (Ok tt, log') /\
    displayed log' = displayed log ++ ((fun vr => np_transpose K vr.2) <$> l) /\
    colour_limits log' = colour_limits log ++ ((fun _ => (f_zero, Some mx)) <$> l) /\
    written log' =
      written log ++
      concat ((fun vr : string * list (list F) =>
                 match dst with
                 | None => []
                 | Some d => [d; (d ++ format_opt fh ++ "_" ++ vr.1 ++ "." ++ ext)%string]
                 end) <$> l).
Proof.
  intros Hp HK Hmx Hdst. revert log. induction l as [|[var row] l IH]; intros log.
  - exists log. simpl. by rewrite !app_nil_r.
  - cbn [for_each].
    rewrite (bind_ok _ _ _ _ _
               (plot_ind_accepted p K N names dst fh ext mx var row log Hp HK Hmx Hdst)).
    destruct (IH (log ++ [Figure K p; Imshow (np_transpose K row);
             Xlabel ("Causes to " ++ var ++ newline)%string;
             Xticks (range p) (TickNames names); Ylabel "Time Lag";
             Yticks (range K) (TickNumbers (seq 1 K)); XaxisLabelTop; XaxisTickTop;
             Clim f_zero (Some mx)]
         ++ match dst with
            | None => []
            | Some d => [Mkdir d;
                         Savefig (d ++ format_opt fh ++ "_" ++ var ++ "." ++ ext)%string]
            end
         ++ [Print ""; Pause])) as (log' & Hrun & Hd & Hc & Hw).
    exists log'. split; [exact Hrun|].
    rewrite Hd, Hc, Hw. unfold colour_limits.
    rewrite !displayed_app, !written_app, !omap_app. simpl.
    destruct dst as [d|]; simpl; rewrite ?app_nil_r, <- ?app_assoc; done.
Qed.

Lemma zip_snd_same_length {A B : Type} (l : list A) (k : list B) :
  length l = length k -> (zip l k).*2 = k /\ (zip l k).*1 = l.
Proof.
  revert k. induction l as [|a l IH]; intros [|b k] Hlen; simpl in *; try done.
  destruct (IH k) as [E1 E2]; [lia|].
  split; f_equal; [exact E1|exact E2].
Qed.

(** X8. In mode 'ind', with one name per effect variable, accepted
    labels and no [dst], the call returns normally and has shown one
    matrix per effect variable, in order: the transposed (lag by cause)
    slice of that variable. *)
Theorem ind_mode_shows_each_slice W (n p K : nat) (names : list string)
    (ord : option norm_ord) (t : F) (fh : option string) (ext : string)
    (log : list (event F)) :
  has_shape3 W n p K -> 1 <= n -> 1 <= p -> length names = n ->
  ticks_accepted p (length names) = true -> ticks_accepted K K = true ->
  let run := causal_heatmap W names "ind" ord t None fh ext log in
  run.1 = Ok tt /\
  displayed run.2 = displayed log ++ (np_transpose K <$> W).
Proof.
  intros HW Hn Hp Hnames Htp HtK run. unfold run.
  rewrite (causal_heatmap_prelude W n p K names "ind" ord t None fh ext log HW Hn Hp)
    by (unfold heatmap_modes; set_solver).
  simpl.
  assert (is_Some (np_max (linalg_norm ord W))) as [mx Hmx].
  { apply (np_max_is_Some _ n p); [|done..]. by apply linalg_norm_shape with K. }
  destruct (for_each_plot_ind p K (linalg_norm ord W) names None fh ext mx
              (zip names W)
              (log ++ [Print ("Autocorrelation during analysis: "
                              ++ format_bool (_has_autocorrelation W))%string])
              Htp HtK Hmx) as (log' & Hrun & Hd & _); [done|].
  rewrite Hrun. simpl. split; [done|].
  rewrite Hd, displayed_app. simpl. rewrite app_nil_r. f_equal.
  destruct (zip_snd_same_length names W) as [Hsnd _]; [destruct HW; lia|].
  rewrite <- Hsnd at 2. by rewrite <- list_fmap_compose.
Qed.

(** X9. In mode 'ind', under the same conditions, every plot gets the
    same colour scale: from zero to the maximum of the whole norm
    matrix. *)
Theorem ind_mode_shares_colour_scale W (n p K : nat) (names : list string)
    (ord : option norm_ord) (t : F) (fh : option string) (ext : string)
    (log : list (event F)) :
  has_shape3 W n p K -> 1 <= n -> 1 <= p -> length names = n ->
  ticks_accepted p (length names) = true -> ticks_accepted K K = true ->
  exists mx,
    np_max (linalg_norm ord W) = Some mx /\
    colour_limits (causal_heatmap W names "ind" ord t None fh ext log).2 =
      colour_limits log ++ replicate n (f_zero, Some mx).
Proof.
  intros HW Hn Hp Hnames Htp HtK.
  rewrite (causal_heatmap_prelude W n p K names "ind" ord t None fh ext log HW Hn Hp)
    by (unfold heatmap_modes; set_solver).
  simpl.
  assert (is_Some (np_max (linalg_norm ord W))) as [mx Hmx].
  { apply (np_max_is_Some _ n p); [|done..]. by apply linalg_norm_shape with K. }
  exists mx. split; [done|].
  destruct (for_each_plot_ind p K (linalg_norm ord W) names None fh ext mx
              (zip names W)
              (log ++ [Print ("Autocorrelation during analysis: "
                              ++ format_bool (_has_autocorrelation W))%string])
              Htp HtK Hmx) as (log' & Hrun & _ & Hc & _); [done|].
  rewrite Hrun. simpl. rewrite Hc. unfold colour_limits at 1.
  rewrite omap_app. simpl. rewrite app_nil_r. f_equal.
  assert (length (zip names W) = n) as Hlen.
  { rewrite length_zip_with. destruct HW as [HW _]. lia. }
  revert Hlen. generalize (zip names W). clear. intros l <-.
  induction l as [|a l IH]; simpl; [done|]. f_equal. exact IH.
Qed.

(** X10. In mode 'ind', with one name per effect variable, accepted
    labels and a [dst] that ends in '/', the call returns normally and
    has, for each name in order, created [dst] and saved the file
    [dst + file_header + '_' + name + '.' + ext]; a missing file header
    is written as 'None' and does not raise. *)
Theorem ind_mode_saves_one_file_per_name W (n p K : nat) (names : list string)
    (ord : option norm_ord) (t : F) (d : string) (fh : option string) (ext : string)
    (log : list (event F)) :
  has_shape3 W n p K -> 1 <= n -> 1 <= p -> length names = n ->
  ticks_accepted p (length names) = true -> ticks_accepted K K = true ->
  str_last d = Some "/"%char ->
  let run := causal_heatmap W names "ind" ord t (Some d) fh ext log in
  run.1 = Ok tt /\
  written run.2 =
    written log ++
    concat ((fun var => [d; (d ++ format_opt fh ++ "_" ++ var ++ "." ++ ext)%string])
              <$> names).
Proof.
  intros HW Hn Hp Hnames Htp HtK Hlast run. unfold run.
  rewrite (causal_heatmap_prelude W n p K names "ind" ord t (Some d) fh ext log HW Hn Hp)
    by (unfold heatmap_modes; set_solver).
  simpl.
  assert (is_Some (np_max (linalg_norm ord W))) as [mx Hmx].
  { apply (np_max_is_Some _ n p); [|done..]. by apply linalg_norm_shape with K. }
  destruct (for_each_plot_ind p K (linalg_norm ord W) names (Some d) fh ext mx
              (zip names W)
              (log ++ [Print ("Autocorrelation during analysis: "
                              ++ format_bool (_has_autocorrelation W))%string])
              Htp HtK Hmx) as (log' & Hrun & _ & _ & Hw).
  { intros d' [= <-]. exact Hlast. }
  rewrite Hrun. simpl. split; [done|].
  rewrite Hw, written_app. simpl. rewrite app_nil_r. do 2 f_equal.
  destruct (zip_snd_same_length names W) as [_ Hfst]; [destruct HW; lia|].
  rewrite <- Hfst at 2. by rewrite <- list_fmap_compose.
Qed.
End HeatmapInd.

Lemma ind_mode_shows_each_slice_witness :
  let run := causal_heatmap (PLT := strict_pyplot) W_self names_AB "ind" (Some ord_2)
               threshold_default None None "png" [] in
  run.1 = Ok tt /\
  displayed run.2 = displayed (F := float) [] ++ (np_transpose 2 <$> W_self).
Proof.
  apply (ind_mode_shows_each_slice (PLT := strict_pyplot) W_self 2 2 2 names_AB
           (Some ord_2) threshold_default None "png" []).
  - split; [reflexivity|]. repeat constructor.
  - lia.
  - lia.
  - reflexivity.
  - reflexivity.
  - reflexivity.
Defined.

Lemma ind_mode_shares_colour_scale_witness :
  exists mx,
    np_max (linalg_norm (Some ord_2) W_self) = Some mx /\
    colour_limits (causal_heatmap (PLT := strict_pyplot) W_self names_AB "ind"
                     (Some ord_2) threshold_default None None "png" []).2 =
      colour_limits (F := float) [] ++ replicate 2 (f_zero, Some mx).
Proof.
  apply (ind_mode_shares_colour_scale (PLT := strict_pyplot) W_self 2 2 2 names_AB
           (Some ord_2) threshold_default None "png" []).
  - split; [reflexivity|]. repeat constructor.
  - lia.
  - lia.
  - reflexivity.
  - reflexivity.
  - reflexivity.
Defined.

Lemma ind_mode_saves_one_file_per_name_witness :
  let run := causal_heatmap (PLT := strict_pyplot) W_self names_AB "ind" (Some ord_2)
               threshold_default (Some "out/") None "png" [] in
  run.1 = Ok tt /\
  written run.2 =
    written (F := float) [] ++
    concat ((fun var => ["out/"; ("out/" ++ format_opt None ++ "_" ++ var ++ "." ++ "png")%string])
              <$> names_AB).
Proof.
  apply (ind_mode_saves_one_file_per_name (PLT := strict_pyplot) W_self 2 2 2 names_AB
           (Some ord_2) threshold_default "out/" None "png" []).
  - split; [reflexivity|]. repeat constructor.
  - lia.
  - lia.
  - reflexivity.
  - reflexivity.
  - reflexivity.
  - reflexivity.
Defined.


(** ** Effects and failures of [causal_graph] *)

Lemma appends_nothing {F A : Type} (c : M F A) (log : list (event F)) :
  appends (fun _ => False) c -> (c log).2 = log.
Proof.
  intros Hc. destruct (Hc log) as (new & -> & Hnew).
  destruct Hnew as [|ev new []]. by rewrite app_nil_r.
Qed.

(** A loop whose body leaves the log alone and can only raise [e0]. *)
Lemma map_M_first_failure {F A B : Type} (f : A -> M F B) (e0 : exn) (l : list A)
    (log : list (event F)) :
  (forall a, a ∈ l ->
     (exists b, f a log = (Ok b, log)) \/ f a log = (Raise e0, log)) ->
  (exists bs, map_M f l log = (Ok bs, log) /\
              forall a, a ∈ l -> exists b, f a log = (Ok b, log)) \/
  (map_M f l log = (Raise e0, log) /\
   exists a, a ∈ l /\ f a log = (Raise e0, log)).
Proof.
  induction l as [|a l IH]; intros Hf.
  - left. exists []. split; [done|]. intros a Ha. by apply elem_of_nil in Ha.
  - destruct (Hf a) as [[b Hb]|Hfail]; [by left| |].
    + destruct IH as [(bs & Hbs & Hall)|(Hr & a' & Ha' & Hfa')].
      { intros a' Ha'. apply Hf. by right. }
      * left. exists (b :: bs). split.
        -- cbn [map_M]. by rewrite (bind_ok _ _ _ _ _ Hb), (bind_ok _ _ _ _ _ Hbs).
        -- intros a' [->|Ha']%elem_of_cons; eauto.
      * right. split.
        -- cbn [map_M]. rewrite (bind_ok _ _ _ _ _ Hb). by rewrite (bind_raise _ _ _ _ _ Hr).
        -- exists a'. split; [by right|done].
    + right. split.
      * cbn [map_M]. by rewrite (bind_raise _ _ _ _ _ Hfail).
      * exists a. split; [by left|done].
Qed.

Section GraphRuns.
Context {F : Type} `{Scalar F}.
Implicit Types (W : list (list (list F))) (N : list (list F)).

Lemma graph_edge_silent N (names : list string) (ec : nat * nat) :
  appends (F := F) (fun _ => False) (graph_edge N names ec).
Proof. unfold graph_edge. cbv zeta. auto 10 with appends. Qed.

(** X11. The only effect of [causal_graph] is one call of [render], made
    exactly when a [dst] is given and the graph was built; without a
    [dst], or when the call raises, nothing is done at all. *)
Theorem causal_graph_effects W (names : list string) (t : F) (u : option bool)
    (dst : option string) (fn : string) (log : list (event F)) :
  let run := causal_graph W names t u dst fn log in
  run.2 = log ++ match run.1, dst with
                 | Ok _, Some d => [Render fn d]
                 | _, _ => []
                 end.
Proof.
  unfold causal_graph. cbv zeta. unfold bind, or_raise, ret, raise, emit.
  destruct (np_max (linalg_norm None W)) as [mx|]; simpl; [|by rewrite app_nil_r].
  pose proof (appends_nothing
                (map_M (graph_edge (linalg_norm None W) names)
                   (np_where (mask_ge (linalg_norm None W) (f_mul t mx)))) log
                (appends_map_M _ _ _ (graph_edge_silent _ names))) as Hlog.
  destruct (map_M _ _ log) as [[edges|e] log']; simpl in Hlog; subst log'.
  - destruct dst as [d|]; simpl; [done|by rewrite app_nil_r].
  - simpl. by rewrite app_nil_r.
Qed.

(** One edge of a selected pair: built when both names exist, and
    [IndexError] otherwise. *)
Lemma graph_edge_outcome N (names : list string) (mx x : F) (e c : nat)
    (log : list (event F)) :
  cell N e c = Some x -> np_max N = Some mx ->
  graph_edge N names (e, c) log =
    match names !! c, names !! e with
    | Some tl, Some hd => (Ok (Edge tl hd (f_mul f_five (f_div x mx)) "1"), log)
    | _, _ => (Raise IndexError, log)
    end.
Proof.
  intros Hx Hmx. unfold graph_edge. simpl.
  rewrite (bind_ok _ _ _ _ _ (or_raise_Some _ _ _ _ Hx)).
  rewrite (bind_ok _ _ _ _ _ (or_raise_Some _ _ _ _ Hmx)).
  unfold bind, or_raise, ret, raise.
  destruct (names !! c), (names !! e); done.
Qed.

(** X12. On a non-empty square tensor, [causal_graph] either returns a
    graph or raises [IndexError], and it raises exactly when some
    selected pair (an entry with norm >= threshold * max) has an effect
    or a cause index without a name. *)
Theorem causal_graph_missing_name W (p K : nat) (names : list string) (t : F)
    (u : option bool) (dst : option string) (fn : string) (log : list (event F)) :
  has_shape3 W p p K -> 1 <= p ->
  let N := linalg_norm None W in
  let run := causal_graph W names t u dst fn log in
  exists mx,
    np_max N = Some mx /\
    ((exists g, run.1 = Ok g) \/ run.1 = Raise IndexError) /\
    (run.1 = Raise IndexError <->
     exists e c x,
       cell N e c = Some x /\ f_leb (f_mul t mx) x = true /\
       (length names <= c \/ length names <= e)).
Proof.
  intros HW Hp N run.
  pose proof (linalg_norm_shape None W p p K HW) as HN. fold N in HN.
  destruct (np_max_is_Some N p p HN Hp Hp) as [mx Hmx].
  exists mx. split; [done|].
  set (sel := np_where (mask_ge N (f_mul t mx))).
  assert (forall ec, ec ∈ sel ->
            (exists b, graph_edge N names ec log = (Ok b, log)) \/
            graph_edge N names ec log = (Raise IndexError, log)) as Hstep.
  { intros [e c] (x & Hx & _)%np_where_ge.
    rewrite (graph_edge_outcome N names mx x e c log Hx Hmx).
    destruct (names !! c), (names !! e); eauto. }
  assert (run = bind (map_M (graph_edge N names) sel)
                  (fun edges =>
                     bind (match dst with
                           | None => ret tt
                           | Some d => emit (Render fn d)
                           end)
                       (fun _ => ret {| graph_attr :=
                                          if negb (_has_autocorrelation W)
                                          then <["layout" := "circo"]>
                                                 (<["rankdir" := "LR"]>
                                                    (<["margin" := "0"]> ∅))
                                          else <["rankdir" := "LR"]>
                                                 (<["margin" := "0"]> ∅);
                                        body := ((fun var => Node var var) <$> names)
                                                ++ edges |})) log) as Hrun.
  { unfold run, causal_graph. cbv zeta. fold N.
    rewrite (bind_ok _ _ _ _ _ (or_raise_Some _ _ _ _ Hmx)). reflexivity. }
  destruct (map_M_first_failure (graph_edge N names) IndexError sel log Hstep)
    as [(bs & Hbs & Hall)|(Hr & [e c] & Hin & Hfail)].
  - assert (exists g, run.1 = Ok g) as [g Hg].
    { rewrite Hrun, (bind_ok _ _ _ _ _ Hbs). destruct dst; simpl; eauto. }
    split; [eauto|]. rewrite Hg. split; [done|].
    intros (e & c & x & Hx & Hle & Hmiss). exfalso.
    destruct (Hall (e, c)) as [b Hb]; [apply np_where_ge; eauto|].
    rewrite (graph_edge_outcome N names mx x e c log Hx Hmx) in Hb.
    destruct Hmiss as [Hc|He].
    + by rewrite (lookup_ge_None_2 names c Hc) in Hb.
    + rewrite (lookup_ge_None_2 names e He) in Hb. by destruct (names !! c).
  - assert (run.1 = Raise IndexError) as Hraise.
    { by rewrite Hrun, (bind_raise _ _ _ _ _ Hr). }
    split; [by right|]. split; [intros _|done].
    apply np_where_ge in Hin as (x & Hx & Hle).
    exists e, c, x. split; [done|]. split; [done|].
    rewrite (graph_edge_outcome N names mx x e c log Hx Hmx) in Hfail.
    destruct (names !! c) as [tl|] eqn:Hc.
    + destruct (names !! e) as [hd|] eqn:He; [done|].
      right. by apply lookup_ge_None.
    + left. by apply lookup_ge_None.
Qed.

(** X13. On a tensor without entries in its norm matrix (shape
    [n x 0 x K], the empty tensor included) [causal_graph] raises the
    [ValueError] of [np.max] and renders nothing. *)
Theorem causal_graph_empty_tensor W (n K : nat) (names : list string) (t : F)
    (u : option bool) (dst : option string) (fn : string) (log : list (event F)) :
  has_shape3 W n 0 K ->
  causal_graph W names t u dst fn log = (Raise ValueError, log).
Proof.
  intros [_ HW]. unfold causal_graph. cbv zeta.
  assert (np_max (linalg_norm None W) = None) as ->; [|done].
  unfold np_max. replace (concat (linalg_norm None W)) with (@nil F); [done|].
  induction HW as [|M W [HM _] _ IH]; [done|].
  apply nil_length_inv in HM as ->. simpl. exact IH.
Qed.
End GraphRuns.

Lemma causal_graph_missing_name_witness :
  let run := causal_graph W_sample ["A"] threshold_default None None "graph" [] in
  exists mx,
    np_max (linalg_norm None W_sample) = Some mx /\
    ((exists g, run.1 = Ok g) \/ run.1 = Raise IndexError) /\
    (run.1 = Raise IndexError <->
     exists e c x,
       cell (linalg_norm None W_sample) e c = Some x /\
       f_leb (f_mul threshold_default mx) x = true /\
       (length ["A"] <= c \/ length ["A"] <= e)).
Proof.
  apply (causal_graph_missing_name W_sample 2 1 ["A"] threshold_default
           None None "graph" []).
  - split; [reflexivity|]. repeat constructor.
  - lia.
Defined.

Lemma causal_graph_empty_tensor_witness :
  causal_graph ([[]; []] : list (list (list float))) names_AB threshold_default
    None None "graph" [] = (Raise ValueError, []).
Proof.
  apply (causal_graph_empty_tensor _ 2 3). split; [reflexivity|]. repeat constructor.
Defined.


(** ** Composing saves and loads *)

Section StoreCompose.
Context {F V : Type} {NP : NumpyLoad}.
Implicit Types (W : list (list (list F))) (hparams : gmap string V).
Implicit Types (fs : gmap string (gmap string (@npy F V))).

(** X15. A save replaces whatever archive was at its path: after two
    saves under the same [dst] and [filename] the store is as after the
    second alone, so no member of the first archive, [W_submod]
    included, survives. *)
Theorem save_results_overwrites (filename dst : string) W1 W2 hparams1 hparams2
    (W_submod1 W_submod2 : option (list (list (list F)))) fs :
  save_results filename dst W2 hparams2 W_submod2
    (save_results filename dst W1 hparams1 W_submod1 fs) =
    save_results filename dst W2 hparams2 W_submod2 fs.
Proof.
  unfold save_results.
  destruct W_submod1, W_submod2; by rewrite insert_insert_eq.
Qed.

Lemma npz_getitem_KeyError (file : gmap string (@npy F V)) (key key' : string) :
  npz_getitem file key = Raise (KeyError key') <-> file !! key = None /\ key' = key.
Proof.
  unfold npz_getitem. destruct (file !! key) as [[a|o]|].
  - split; [done|]. by intros [? _].
  - destruct allow_pickle; (split; [done|]); by intros [? _].
  - split; [by intros [= ->]|]. by intros [_ ->].
Qed.

Lemma npy_item_not_KeyError (a : @npy F V) (key : string) :
  npy_item a <> Raise (KeyError key).
Proof.
  destruct a as [t|o]; simpl; [|done].
  by destruct (concat (concat t)) as [|x [|y r]].
Qed.

(** X16. The failures of [load_results], in the order the code meets
    them: [FileNotFoundError] exactly when there is no archive at
    [src + '.npz']; otherwise [KeyError] for 'W' exactly when the
    archive has no member 'W'; otherwise, once 'W' has been read,
    [KeyError] for 'hparams' exactly when it has no member 'hparams'. *)
Theorem load_results_errors (src : string) fs :
  (load_results src fs = Raise FileNotFoundError <->
     fs !! (src ++ ".npz")%string = None) /\
  (forall file, fs !! (src ++ ".npz")%string = Some file ->
     (load_results src fs = Raise (KeyError "W") <-> file !! "W" = None) /\
     (forall w, npz_getitem file "W" = Ok w ->
        (load_results src fs = Raise (KeyError "hparams") <->
           file !! "hparams" = None))).
Proof.
  unfold load_results. split.
  - destruct (fs !! (src ++ ".npz")%string) as [file|]; [|done].
    split; [|done].
    destruct (npz_getitem file "W") as [w|e] eqn:Hw.
    + destruct (npz_getitem file "hparams") as [hm|e] eqn:Hhm.
      * destruct (npy_item hm) as [h|e] eqn:Hh.
        -- case_bool_decide; [|done].
           destruct (npz_getitem file "W_submod") as [ws|e] eqn:Hws; [done|].
           intros [= ->]. unfold npz_getitem in Hws.
           destruct (file !! "W_submod") as [[a|o]|]; [done| |done].
           by destruct allow_pickle.
        -- intros [= ->]. destruct hm as [t|o]; simpl in Hh; [|done].
           by destruct (concat (concat t)) as [|x [|y r]].
      * intros [= ->]. unfold npz_getitem in Hhm.
        destruct (file !! "hparams") as [[a|o]|]; [done| |done].
        by destruct allow_pickle.
    + intros [= ->]. unfold npz_getitem in Hw.
      destruct (file !! "W") as [[a|o]|]; [done| |done].
      by destruct allow_pickle.
  - intros file ->. split.
    + destruct (npz_getitem file "W") as [w|e] eqn:Hw.
      * assert (file !! "W" <> None) as Hsome.
        { unfold npz_getitem in Hw. by destruct (file !! "W"). }
        split; [|done].
        destruct (npz_getitem file "hparams") as [hm|e] eqn:Hhm.
        -- destruct (npy_item hm) as [h|e] eqn:Hh.
           ++ case_bool_decide; [|done].
              destruct (npz_getitem file "W_submod") as [ws|e] eqn:Hws; [done|].
              intros [= ->]. apply npz_getitem_KeyError in Hws as [_ [=]].
           ++ intros [= ->]. by apply npy_item_not_KeyError in Hh.
        -- intros [= ->]. apply npz_getitem_KeyError in Hhm as [_ [=]].
      * split.
        -- intros [= ->]. by apply npz_getitem_KeyError in Hw as [? _].
        -- intros Hnone. unfold npz_getitem in Hw. rewrite Hnone in Hw. congruence.
    + intros w ->.
      destruct (npz_getitem file "hparams") as [hm|e] eqn:Hhm.
      * assert (file !! "hparams" <> None) as Hsome.
        { unfold npz_getitem in Hhm. by destruct (file !! "hparams"). }
        split; [|done].
        destruct (npy_item hm) as [h|e] eqn:Hh.
        -- case_bool_decide; [|done].
           destruct (npz_getitem file "W_submod") as [ws|e] eqn:Hws; [done|].
           intros [= ->]. apply npz_getitem_KeyError in Hws as [_ [=]].
        -- intros [= ->]. by apply npy_item_not_KeyError in Hh.
      * split.
        -- intros [= ->]. by apply npz_getitem_KeyError in Hhm as [? _].
        -- intros Hnone. unfold npz_getitem in Hhm. rewrite Hnone in Hhm. congruence.
Qed.

(** An archive whose member 'W' is itself an object array: with
    numpy's current default the read of 'W' raises [ValueError] before
    'hparams' is looked up. *)
Lemma load_results_object_W (src : string) fs (file : gmap string (@npy F V))
    (o : gmap string V) :
  allow_pickle = false ->
  fs !! (src ++ ".npz")%string = Some file ->
  file !! "W" = Some (NpyObject o) ->
  load_results src fs = Raise ValueError.
Proof.
  intros Hnp Hfile HW. unfold load_results, npz_getitem.
  by rewrite Hfile, HW, Hnp.
Qed.
End StoreCompose.

(** ** The maximum, as an order-theoretic fact *)


Lemma elem_of_concat {A : Type} (m : list (list A)) (x : A) :
  x ∈ concat m <-> exists row, row ∈ m /\ x ∈ row.
Proof.
  induction m as [|r m IH]; simpl.
  - split; [by intros ?%elem_of_nil|]. by intros (row & ?%elem_of_nil & _).
  - rewrite elem_of_app, IH. split.
    + intros [Hx|(row & Hrow & Hx)]; [exists r; split; [by left|done]|].
      exists row. split; [by right|done].
    + intros (row & [->|Hrow]%elem_of_cons & Hx); [by left|right; eauto].
Qed.

Lemma elem_of_concat_cell {A : Type} `{Scalar A} (m : list (list A)) (x : A) :
  x ∈ concat m <-> exists i j, cell m i j = Some x.
Proof.
  rewrite elem_of_concat. split.
  - intros (row & [i Hi]%list_elem_of_lookup_1 & [j Hj]%list_elem_of_lookup_1).
    exists i, j. apply cell_Some. eauto.
  - intros (i & j & (row & Hi & Hj)%cell_Some).
    exists row. split; by eapply list_elem_of_lookup_2.
Qed.




(** ** binary64: a NaN weight *)

Lemma SFcompare_refl (s : spec_float) : s <> S754_nan -> SFcompare s s = Some Eq.
Proof.
  destruct s as [[]|[]| |[] m e]; simpl; try done;
    rewrite Z.compare_refl;
    change (Pos.compare_cont Eq m m) with (m ?= m)%positive;
    by rewrite Pos.compare_refl.
Qed.

Lemma float_is_nan_spec (x : float) :
  PrimFloat.is_nan x = true <-> Prim2SF x = S754_nan.
Proof.
  unfold PrimFloat.is_nan. rewrite negb_true_iff, FloatAxioms.eqb_spec. unfold SFeqb. split.
  - intros Hc. destruct (Prim2SF x) eqn:E; try done;
      rewrite SFcompare_refl in Hc; done.
  - intros ->. reflexivity.
Qed.

Lemma float_mul_nan (x y : float) :
  PrimFloat.is_nan x = true \/ PrimFloat.is_nan y = true ->
  PrimFloat.is_nan (x * y) = true.
Proof.
  rewrite !float_is_nan_spec, FloatAxioms.mul_spec. unfold SF64mul.
  intros [-> | ->]; [done|]. by destruct (Prim2SF x).
Qed.

Lemma float_add_nan (x y : float) :
  PrimFloat.is_nan x = true \/ PrimFloat.is_nan y = true ->
  PrimFloat.is_nan (x + y) = true.
Proof.
  rewrite !float_is_nan_spec, FloatAxioms.add_spec. unfold SF64add.
  intros [-> | ->]; [done|]. by destruct (Prim2SF x).
Qed.

Lemma float_sqrt_nan (x : float) :
  PrimFloat.is_nan x = true -> PrimFloat.is_nan (PrimFloat.sqrt x) = true.
Proof. rewrite !float_is_nan_spec, FloatAxioms.sqrt_spec. by intros ->. Qed.

Lemma float_abs_nan (x : float) :
  PrimFloat.is_nan x = true -> PrimFloat.is_nan (PrimFloat.abs x) = true.
Proof. rewrite !float_is_nan_spec, FloatAxioms.abs_spec. by intros ->. Qed.

(** A NaN compares false with everything. *)
Lemma float_compare_nan (x y : float) :
  PrimFloat.is_nan x = true \/ PrimFloat.is_nan y = true ->
  PrimFloat.leb x y = false /\ PrimFloat.ltb x y = false.
Proof.
  rewrite !float_is_nan_spec, FloatAxioms.leb_spec, FloatAxioms.ltb_spec. unfold SFleb, SFltb.
  intros [-> | ->]; [done|]. by destruct (Prim2SF x).
Qed.

Lemma float_sum_nan (l : list float) (a : float) :
  PrimFloat.is_nan a = true \/ Exists (fun x => PrimFloat.is_nan x = true) l ->
  PrimFloat.is_nan (foldl PrimFloat.add a l) = true.
Proof.
  revert a. induction l as [|x l IH]; intros a; simpl.
  - intros [Ha|Hex]; [done|by apply Exists_nil in Hex].
  - intros [Ha|[Hx|Hex]%Exists_cons]; apply IH.
    + left. apply float_add_nan. by left.
    + left. apply float_add_nan. by right.
    + by right.
Qed.

Lemma float_vector_norm_nan (ord : option norm_ord) (v : list float) :
  Exists (fun x => PrimFloat.is_nan x = true) v ->
  PrimFloat.is_nan (vector_norm ord v) = true.
Proof.
  intros Hex.
  assert (forall g : float -> float,
            (forall x, PrimFloat.is_nan x = true -> PrimFloat.is_nan (g x) = true) ->
            PrimFloat.is_nan (np_sum (g <$> v)) = true) as Hsum.
  { intros g Hg. apply float_sum_nan. right. apply Exists_fmap.
    eapply Exists_impl; [exact Hex|]. exact Hg. }
  destruct ord as [[]|]; simpl.
  - apply Hsum, float_abs_nan.
  - apply float_sqrt_nan, Hsum. intros x Hx. apply float_mul_nan. by left.
  - apply float_sqrt_nan, Hsum. intros x Hx. apply float_mul_nan. by left.
Qed.

Lemma float_maximum_nan (l : list float) (a : float) :
  PrimFloat.is_nan a = true \/ Exists (fun x => PrimFloat.is_nan x = true) l ->
  PrimFloat.is_nan (foldl float_maximum a l) = true.
Proof.
  revert a. induction l as [|x l IH]; intros a; simpl.
  - intros [Ha|Hex]; [done|by apply Exists_nil in Hex].
  - intros [Ha|[Hx|Hex]%Exists_cons]; apply IH.
    + left. unfold float_maximum. by rewrite Ha.
    + left. unfold float_maximum. destruct (PrimFloat.is_nan a) eqn:Ha; [done|].
      by rewrite Hx.
    + by right.
Qed.

Section NaN.
Implicit Types (W : list (list (list float))).

(** The norm matrix of a tensor with a NaN entry: its maximum is NaN. *)
Lemma float_norm_max_nan W (n p K : nat) (ord : option norm_ord) (i j k : nat)
    (v : list float) (x : float) :
  W !! i ≫= (fun M : list (list float) => M !! j) = Some v ->
  v !! k = Some x -> PrimFloat.is_nan x = true ->
  exists mx, np_max (linalg_norm ord W) = Some mx /\ PrimFloat.is_nan mx = true.
Proof.
  intros Hv Hk Hx.
  assert (cell (linalg_norm ord W) i j = Some (vector_norm ord v)) as Hcell
    by (by rewrite cell_linalg_norm, Hv).
  assert (PrimFloat.is_nan (vector_norm ord v) = true) as Hnan.
  { apply float_vector_norm_nan, Exists_exists. exists x.
    split; [by eapply list_elem_of_lookup_2|done]. }
  assert (Exists (fun y => PrimFloat.is_nan y = true) (concat (linalg_norm ord W)))
    as Hex.
  { apply Exists_exists. exists (vector_norm ord v). split; [|done].
    apply elem_of_concat_cell. eauto. }
  unfold np_max. destruct (concat (linalg_norm ord W)) as [|y r];
    [by apply Exists_nil in Hex|].
  eexists. split; [reflexivity|]. apply float_maximum_nan.
  apply Exists_cons in Hex as [Hy|Hr]; [by left|by right].
Qed.

(** With a NaN cut-off nothing is selected. *)
Lemma float_nan_cutoff_selects_nothing (N : list (list float)) (c : float) :
  PrimFloat.is_nan c = true ->
  np_where (mask_ge N c) = [] /\ np_where (mask_lt N c) = [].
Proof.
  intros Hc. split; apply elem_of_nil_inv; intros [a b].
  - intros (x & _ & Hle)%np_where_ge. simpl in Hle.
    destruct (float_compare_nan c x) as [Hf _]; [by left|]. congruence.
  - intros (x & _ & Hlt)%np_where_lt. simpl in Hlt.
    destruct (float_compare_nan x c) as [_ Hf]; [by right|]. congruence.
Qed.

(** X23. In binary64, a tensor with a NaN entry defeats the
    thresholding of mode 'joint_threshold': the matrix shown is the
    norm matrix itself, not a matrix of zeros and ones. *)
Theorem nan_weight_leaves_heatmap_unthresholded {PLT : Pyplot} W (n p K : nat)
    (names : list string) (ord : option norm_ord) (t : float)
    (dst fh : option string) (ext : string) (log : list (event float))
    (i j k : nat) (v : list float) (x : float) :
  has_shape3 W n p K -> 1 <= n -> 1 <= p ->
  W !! i ≫= (fun M : list (list float) => M !! j) = Some v ->
  v !! k = Some x -> PrimFloat.is_nan x = true ->
  displayed (causal_heatmap W names "joint_threshold" ord t dst fh ext log).2 =
    displayed log ++ [linalg_norm ord W].
Proof.
  intros HW Hn Hp Hv Hk Hx.
  destruct (float_norm_max_nan W n p K ord i j k v x Hv Hk Hx) as (mx & Hmx & Hnan).
  rewrite (causal_heatmap_prelude W n p K names "joint_threshold" ord t dst fh ext log
             HW Hn Hp) by (unfold heatmap_modes; set_solver).
  rewrite (bool_decide_eq_false_2 ("joint_threshold" = "joint")) by done.
  rewrite (bool_decide_eq_true_2 ("joint_threshold" = "joint_threshold")) by done.
  lazy iota. unfold joint_threshold_matrix, bind, or_raise, ret. rewrite Hmx.
  destruct (float_nan_cutoff_selects_nothing (linalg_norm ord W) (f_mul t mx))
    as [-> ->]; [apply float_mul_nan; by right|].
  unfold set_cells. simpl foldl.
  destruct (plot_overall_displayed p (linalg_norm ord W) names dst fh ext
              (log ++ [Print ("Autocorrelation during analysis: "
                              ++ format_bool (_has_autocorrelation W))%string]))
    as (res & log' & Hrun & Hshown).
  rewrite Hrun. simpl. rewrite Hshown, displayed_app. simpl. by rewrite app_nil_r.
Qed.

(** X24. In binary64, a tensor with a NaN entry makes [causal_graph]
    return a graph without any edge, whatever the threshold and however
    many names are given. *)
Theorem nan_weight_removes_all_edges W (names : list string) (t : float)
    (u : option bool) (dst : option string) (fn : string)
    (log : list (event float)) (i j k : nat) (v : list float) (x : float) :
  W !! i ≫= (fun M : list (list float) => M !! j) = Some v ->
  v !! k = Some x -> PrimFloat.is_nan x = true ->
  exists g,
    (causal_graph W names t u dst fn log).1 = Ok g /\
    body g = (fun var => Node var var) <$> names.
Proof.
  intros Hv Hk Hx.
  destruct (float_norm_max_nan W 0 0 0 None i j k v x Hv Hk Hx) as (mx & Hmx & Hnan).
  unfold causal_graph. cbv zeta.
  rewrite (bind_ok _ _ _ _ _ (or_raise_Some _ _ _ _ Hmx)).
  destruct (float_nan_cutoff_selects_nothing (linalg_norm None W) (f_mul t mx))
    as [-> _]; [apply float_mul_nan; by right|].
  unfold bind, ret, emit. simpl.
  eexists. split; [by destruct dst|]. simpl. by rewrite app_nil_r.
Qed.
End NaN.

(** A tensor with a NaN weight. *)
Lemma nan_weight_leaves_heatmap_unthresholded_witness :
  displayed (causal_heatmap (PLT := strict_pyplot)
               [[[nan]; [5%float]]; [[0%float]; [0%float]]] names_AB
               "joint_threshold" (Some ord_2) threshold_default None None "png" []).2 =
    [] ++ [linalg_norm (Some ord_2) [[[nan]; [5%float]]; [[0%float]; [0%float]]]].
Proof.
  apply (nan_weight_leaves_heatmap_unthresholded (PLT := strict_pyplot)
           [[[nan]; [5%float]]; [[0%float]; [0%float]]] 2 2 1 names_AB (Some ord_2)
           threshold_default None None "png" [] 0 0 0 [nan] nan).
  - split; [reflexivity|]. repeat constructor.
  - lia.
  - lia.
  - reflexivity.
  - reflexivity.
  - reflexivity.
Defined.

Lemma nan_weight_removes_all_edges_witness :
  exists g,
    (causal_graph [[[nan]; [5%float]]; [[0%float]; [0%float]]] names_AB
       threshold_default None None "graph" []).1 = Ok g /\
    body g = (fun var => Node var var) <$> names_AB.
Proof.
  apply (nan_weight_removes_all_edges _ names_AB threshold_default None None
           "graph" [] 0 0 0 [nan] nan); reflexivity.
Defined.


(** ** More on the heatmap *)

Section HeatmapMore.
Context {F : Type} `{Scalar F} {PLT : Pyplot}.

(** X25. On the empty tensor, a call of [causal_heatmap] with a valid
    mode raises [IndexError] at [W[0]], before anything is printed,
    plotted or written. *)
Theorem causal_heatmap_empty_tensor (names : list string) (mode : string)
    (ord : option norm_ord) (t : F) (dst fh : option string) (ext : string)
    (log : list (event F)) :
  mode ∈ heatmap_modes ->
  causal_heatmap [] names mode ord t dst fh ext log = (Raise IndexError, log).
Proof.
  intros Hmode. unfold causal_heatmap.
  by rewrite bool_decide_eq_true_2 by done.
Qed.

(** X26. The threshold is read in mode 'joint_threshold' only: in any
    other mode two calls that differ in the threshold alone do the
    same. *)
Theorem threshold_only_read_in_joint_threshold (W : list (list (list F)))
    (names : list string) (mode : string) (ord : option norm_ord) (t1 t2 : F)
    (dst fh : option string) (ext : string) (log : list (event F)) :
  mode <> "joint_threshold" ->
  causal_heatmap W names mode ord t1 dst fh ext log =
    causal_heatmap W names mode ord t2 dst fh ext log.
Proof.
  intros Hmode. unfold causal_heatmap.
  rewrite (bool_decide_eq_false_2 (mode = "joint_threshold")) by done.
  reflexivity.
Qed.
End HeatmapMore.

Lemma causal_heatmap_empty_tensor_witness :
  causal_heatmap (PLT := strict_pyplot) ([] : list (list (list float))) names_AB
    "ind" (Some ord_2) threshold_default None None "png" [] = (Raise IndexError, []).
Proof.
  apply causal_heatmap_empty_tensor. unfold heatmap_modes.
  apply elem_of_cons. right. apply elem_of_cons. by left.
Defined.

Lemma threshold_only_read_in_joint_threshold_witness :
  causal_heatmap (PLT := strict_pyplot) W_sample names_AB "joint" (Some ord_2)
    threshold_default None None "png" [] =
  causal_heatmap (PLT := strict_pyplot) W_sample names_AB "joint" (Some ord_2)
    5%float None None "png" [].
Proof. apply threshold_only_read_in_joint_threshold. discriminate. Defined.

(** ** binary64: what the detector needs *)

Lemma float_eqb_zero (x : float) :
  PrimFloat.eqb x 0 = true -> x = 0%float \/ x = neg_zero.
Proof.
  rewrite FloatAxioms.eqb_spec. intros Hx.
  rewrite <- (SF2Prim_Prim2SF x).
  destruct (Prim2SF x) as [[]|[]| |[] m e]; try done; [by right|by left].
Qed.

Lemma float_norm_of_zeros (v : list float) :
  Forall (fun x => PrimFloat.eqb x 0 = true) v ->
  vector_norm None v = 0%float.
Proof.
  intros Hv. unfold vector_norm, np_sum.
  assert (foldl (f_add (F := float)) 0%float ((fun x : float => f_mul x x) <$> v)
          = 0%float) as Hsum.
  { induction Hv as [|x v Hx _ IH]; [reflexivity|].
    simpl. destruct (float_eqb_zero x Hx) as [-> | ->]; exact IH. }
  simpl in *. rewrite Hsum. reflexivity.
Qed.

Lemma float_zero_or_not (v : list float) :
  Forall (fun x => PrimFloat.eqb x 0 = true) v \/
  Exists (fun x => PrimFloat.eqb x 0 = false) v.
Proof.
  induction v as [|x v [IH|IH]].
  - left. constructor.
  - destruct (PrimFloat.eqb x 0) eqn:Hx.
    + left. by constructor.
    + right. by left.
  - right. by right.
Qed.

(** X17. In binary64, [_has_autocorrelation] answers true on a square
    tensor only when some variable has a weight on itself, an entry
    W[i, i, k], that is not zero. *)
Theorem has_autocorrelation_needs_self_weight (W : list (list (list float)))
    (p K : nat) :
  has_shape3 W p p K ->
  _has_autocorrelation W = true ->
  exists i k v x,
    W !! i ≫= (fun M : list (list float) => M !! i) = Some v /\
    v !! k = Some x /\ PrimFloat.eqb x 0 = false.
Proof.
  intros HW (i & y & Hy & Hnz)%(has_autocorrelation_true W p K HW).
  rewrite cell_linalg_norm in Hy.
  destruct (W !! i ≫= fun M : list (list float) => M !! i) as [v|] eqn:Hv; [|done].
  injection Hy as <-.
  destruct (float_zero_or_not v) as [Hall|Hex].
  - change (f_eqb (vector_norm None v) f_zero = false) in Hnz.
    by rewrite (float_norm_of_zeros v Hall) in Hnz.
  - apply Exists_exists in Hex as (x & [k Hk]%list_elem_of_lookup_1 & Hx).
    exists i, k, v, x. done.
Qed.

Lemma has_autocorrelation_needs_self_weight_witness :
  exists i k v x,
    W_self !! i ≫= (fun M : list (list float) => M !! i) = Some v /\
    v !! k = Some x /\ PrimFloat.eqb x 0 = false.
Proof.
  apply (has_autocorrelation_needs_self_weight W_self 2 2).
  - split; [reflexivity|]. repeat constructor.
  - reflexivity.
Defined.

(** The converse fails in binary64: the square of the self weight 2^-600
    underflows to zero, and the detector answers false. *)
Lemma tiny_self_weight_undetected :
  _has_autocorrelation [[[0x1p-600%float]]] = false /\
  PrimFloat.eqb 0x1p-600 0 = false.
Proof. split; reflexivity. Qed.
